(** * Round-robin reverse-proxy load balancer (main.go)

    A shallow embedding of the dispatch core of [main.go]: the [Server]
    interface, [simpleServer], [LoadBalancer], the selection method
    [getNextAvailableServer], the dispatcher [serveProxy] and the start-up
    path ([newSimpleServer], [handleErr], [main]).

    Conventions.
    - Go's [int] is the 64-bit two's complement integer of the usual
      targets: a value is a [Z] in [[int_min, int_max]], [++] wraps around.
    - Go's [%] truncates towards zero ([Z.rem]) and panics on a zero divisor.
    - Indexing a slice outside [[0, len)] panics.
    - The [for] loop of [getNextAvailableServer] is run with a budget of
      loop-body executions; a run that exhausts its budget is [Spinning]. *)

From Stdlib Require Import ZArith Lia String Ascii.
From stdpp Require Import base list sorting.

Local Open Scope Z_scope.

(** ** Machine integers *)

Module GoInt.

Definition int_min : Z := - 2 ^ 63.
Definition int_max : Z := 2 ^ 63 - 1.

(** Two's complement reduction of an integer to the [int] range. *)
Definition wrap (z : Z) : Z := (z + 2 ^ 63) mod 2 ^ 64 - 2 ^ 63.

(** [x++] *)
Definition incr (x : Z) : Z := wrap (x + 1).

Definition in_range (z : Z) : Prop := int_min <= z <= int_max.

End GoInt.

Export GoInt.

(** ** The [Server] interface and the balancer *)

(** Run-time panics the selection code can raise. *)
Inductive panic : Type :=
| DivideByZero
| IndexOutOfRange (i len : Z).

(** [type Server interface { Address() string; IsAlive() bool; Serve(rw, req) }]

    The HTTP side is a collaborator: requests, the response writer and
    whatever a forward does to it are left abstract. [Serve] maps the
    writer before the forward to the writer after it. *)
Class Server (Request ResponseWriter T : Type) : Type := {
  Address : T -> string;
  IsAlive : T -> bool;
  Serve : T -> ResponseWriter -> Request -> ResponseWriter
}.

(** [type LoadBalancer struct { port string; roundRobinCount int; servers []Server }] *)
Record LoadBalancer (T : Type) : Type := mkLB {
  port : string;
  roundRobinCount : Z;
  servers : list T
}.
Arguments mkLB {T} port roundRobinCount servers.
Arguments port {T} l.
Arguments roundRobinCount {T} l.
Arguments servers {T} l.

(** A call on a balancer either returns a value and the updated balancer,
    panics leaving the balancer as it was at that point, or is still inside
    its loop when the budget is exhausted. *)
Inductive outcome (T A : Type) : Type :=
| Returned (a : A) (lb : LoadBalancer T)
| Panicked (p : panic) (lb : LoadBalancer T)
| Spinning.
Arguments Returned {T A} a lb.
Arguments Panicked {T A} p lb.
Arguments Spinning {T A}.

(** The line feed that ends a printed line. *)
Definition newline : string := String (ascii_of_nat 10) EmptyString.

(** What a request handler does to the outside world, in order. *)
Inductive event (Request T : Type) : Type :=
| Printed (line : string)
| Forwarded (target : T) (req : Request).
Arguments Printed {Request T} line.
Arguments Forwarded {Request T} target req.

Section Dispatch.

Context {Request ResponseWriter T : Type}.
Context `{!Server Request ResponseWriter T}.

(** The [%q] verb of [fmt.Printf] (Go-syntax quoting of a string). *)
Variable quote : string -> string.

(** [NewLoadBalancer(port, servers)] *)
Definition NewLoadBalancer (p : string) (ss : list T) : LoadBalancer T :=
  {| port := p; roundRobinCount := 0; servers := ss |}.

(** [len(lb.servers)] *)
Definition len (lb : LoadBalancer T) : Z := Z.of_nat (length (servers lb)).

(** [lb.servers[lb.roundRobinCount % len(lb.servers)]] *)
Definition candidate (lb : LoadBalancer T) : T + panic :=
  if len lb =? 0 then inr DivideByZero
  else
    let i := Z.rem (roundRobinCount lb) (len lb) in
    if i <? 0 then inr (IndexOutOfRange i (len lb))
    else match servers lb !! Z.to_nat i with
         | Some s => inl s
         | None => inr (IndexOutOfRange i (len lb))
         end.

(** The balancer [lb] with its cursor set to [c]. *)
Definition at_cursor (lb : LoadBalancer T) (c : Z) : LoadBalancer T :=
  {| port := port lb; roundRobinCount := c; servers := servers lb |}.

(** [lb.roundRobinCount++] *)
Definition bump (lb : LoadBalancer T) : LoadBalancer T :=
  {| port := port lb;
     roundRobinCount := incr (roundRobinCount lb);
     servers := servers lb |}.

(** The loop
    [for !server.IsAlive() { lb.roundRobinCount++; server = lb.servers[...] }]
    entered with [server]; [budget] bounds the executions of its body. *)
Fixpoint skip_loop (budget : nat) (server : T) (lb : LoadBalancer T)
  : outcome T T :=
  if IsAlive server then Returned server lb
  else match budget with
       | O => Spinning
       | S budget' =>
           let lb1 := bump lb in
           match candidate lb1 with
           | inl server' => skip_loop budget' server' lb1
           | inr p => Panicked p lb1
           end
       end.

(** [func (lb *LoadBalancer) getNextAvailableServer() Server] *)
Definition getNextAvailableServer (budget : nat) (lb : LoadBalancer T)
  : outcome T T :=
  match candidate lb with
  | inr p => Panicked p lb
  | inl server =>
      match skip_loop budget server lb with
      | Returned server' lb' => Returned server' (bump lb')
      | Panicked p lb' => Panicked p lb'
      | Spinning => Spinning
      end
  end.

(** [func (lb *LoadBalancer) serveProxy(rw, req)]: the value returned is
    the response writer after the forward together with the calls made on
    the outside world. *)
Definition serveProxy (budget : nat) (lb : LoadBalancer T)
    (rw : ResponseWriter) (req : Request)
  : outcome T (ResponseWriter * list (event Request T)) :=
  match getNextAvailableServer budget lb with
  | Returned targetServer lb' =>
      let line :=
        ("forwarding request to address " ++ quote (Address targetServer)
           ++ newline)%string in
      Returned (Serve targetServer rw req,
                [Printed line; Forwarded targetServer req]) lb'
  | Panicked p lb' => Panicked p lb'
  | Spinning => Spinning
  end.

(** The forwards among the calls made by a handler. *)
Definition forwards (evs : list (event Request T)) : list (T * Request) :=
  omap (fun e => match e with
                 | Forwarded t req => Some (t, req)
                 | Printed _ => None
                 end) evs.

(** ** Successive calls *)

(** [m] calls of [getNextAvailableServer] one after the other on the same
    balancer; the targets they return, in order. The run stops at the
    first call that does not return. *)
Fixpoint calls (budget : nat) (m : nat) (lb : LoadBalancer T)
  : outcome T (list T) :=
  match m with
  | O => Returned [] lb
  | S m' =>
      match getNextAvailableServer budget lb with
      | Returned s lb1 =>
          match calls budget m' lb1 with
          | Returned ss lb2 => Returned (s :: ss) lb2
          | Panicked p lb2 => Panicked p lb2
          | Spinning => Spinning
          end
      | Panicked p lb1 => Panicked p lb1
      | Spinning => Spinning
      end
  end.

(** The value of [roundRobinCount] before the first call and after each
    of [m] successive calls. *)
Fixpoint cursors (budget : nat) (m : nat) (lb : LoadBalancer T)
  : outcome T (list Z) :=
  match m with
  | O => Returned [roundRobinCount lb] lb
  | S m' =>
      match getNextAvailableServer budget lb with
      | Returned _ lb1 =>
          match cursors budget m' lb1 with
          | Returned cs lb2 => Returned (roundRobinCount lb :: cs) lb2
          | Panicked p lb2 => Panicked p lb2
          | Spinning => Spinning
          end
      | Panicked p lb1 => Panicked p lb1
      | Spinning => Spinning
      end
  end.

(** ** Successive requests *)

(** The handler registered by [main], [lb.serveProxy], applied to the
    requests of [reqs] one after the other, each with its own response
    writer; what each handling returns, in order. The run stops at the
    first request whose handling does not return. *)
Fixpoint requests (budget : nat) (lb : LoadBalancer T)
    (reqs : list (ResponseWriter * Request))
  : outcome T (list (ResponseWriter * list (event Request T))) :=
  match reqs with
  | [] => Returned [] lb
  | (rw, req) :: rest =>
      match serveProxy budget lb rw req with
      | Returned r lb1 =>
          match requests budget lb1 rest with
          | Returned rs lb2 => Returned (r :: rs) lb2
          | Panicked p lb2 => Panicked p lb2
          | Spinning => Spinning
          end
      | Panicked p lb1 => Panicked p lb1
      | Spinning => Spinning
      end
  end.

(** ** Vocabulary for the claims *)

(** The target found [j] places past the cursor in the rotation. *)
Definition slot (lb : LoadBalancer T) (j : nat) : option T :=
  servers lb !! Z.to_nat ((roundRobinCount lb + Z.of_nat j) mod len lb).

Definition alive (s : T) : Prop := IsAlive s = true.
Definition down (s : T) : Prop := IsAlive s = false.

#[export] Instance alive_dec s : Decision (alive s) :=
  decide (IsAlive s = true).
#[export] Instance down_dec s : Decision (down s) :=
  decide (IsAlive s = false).

(** The position of the cursor in the rotation. *)
Definition position (lb : LoadBalancer T) : nat :=
  Z.to_nat (roundRobinCount lb mod len lb).

(** ** The selection algorithm in the words of the specification

    Step 1: candidate index = cursor mod poolSize.
    Step 2: while the candidate is not alive, increment the cursor and
            recompute the candidate.
    Step 3: increment the cursor once more and return the candidate.

    The two arithmetic operations are parameters: [modulo] is the
    "mod" of step 1 and [succ] the "increment" of steps 2 and 3. *)

Section Algorithm.

Variable modulo : Z -> Z -> Z.
Variable succ : Z -> Z.
Variable targets : list T.





End Algorithm.

End Dispatch.

(** ** [simpleServer] and process start-up *)

(** What [main] does before it blocks in [http.ListenAndServe], or the
    status it exits with; [out] is what was written to standard output. *)
Inductive process (A : Type) : Type :=
| Running (a : A) (out : list string)
| Exited (status : Z) (out : list string).
Arguments Running {A} a out.
Arguments Exited {A} status out.

(** Sequencing: the rest of [main] runs only if the process has not
    exited; output accumulates. *)
#[export] Instance process_bind : MBind process := fun A B k p =>
  match p with
  | Running a out =>
      match k a with
      | Running b out' => Running b (out ++ out')
      | Exited st out' => Exited st (out ++ out')
      end
  | Exited st out => Exited st out
  end.

Section SimpleServer.

Context {Request ResponseWriter : Type}.

(** [net/url] and [net/http/httputil]: a parsed URL, the proxy bound to
    it and what the proxy does with a request. [url.Parse] returns a
    [*url.URL] (possibly nil) and an error (its message when not nil). *)
Variables URL ReverseProxy : Type.
Variable url_Parse : string -> option URL * option string.
Variable NewSingleHostReverseProxy : option URL -> ReverseProxy.
Variable ServeHTTP : ReverseProxy -> ResponseWriter -> Request -> ResponseWriter.

(** [type simpleServer struct { addr string; proxy *httputil.ReverseProxy }] *)
Record simpleServer : Type := mkSimpleServer {
  addr : string;
  proxy : ReverseProxy
}.

#[export] Instance simpleServer_Server
  : Server Request ResponseWriter simpleServer := {|
  Address s := addr s;
  IsAlive _ := true;
  Serve s rw req := ServeHTTP (proxy s) rw req
|}.

(** [func handleErr(err error)]: prints and calls [os.Exit(1)] when
    [err != nil]. *)
Definition handleErr (err : option string) : process unit :=
  match err with
  | Some msg => Exited 1 [("error: " ++ msg ++ newline)%string]
  | None => Running tt []
  end.

(** [func newSimpleServer(addr string) *simpleServer] *)
Definition newSimpleServer (a : string) : process simpleServer :=
  let '(serverUrl, err) := url_Parse a in
  _ ← handleErr err;
  Running {| addr := a; proxy := NewSingleHostReverseProxy serverUrl |} [].

(** The elements of the slice literal of [main], built left to right. *)
Fixpoint newSimpleServers (addrs : list string)
  : process (list simpleServer) :=
  match addrs with
  | [] => Running [] []
  | a :: rest =>
      s ← newSimpleServer a;
      ss ← newSimpleServers rest;
      Running (s :: ss) []
  end.

(** [main] up to the call of [http.ListenAndServe], for a given list of
    backend addresses and a given port: the balancer whose [serveProxy]
    is registered as the handler of every request. *)
Definition main_with (addrs : list string) (p : string)
  : process (LoadBalancer simpleServer) :=
  ss ← newSimpleServers addrs;
  let lb := NewLoadBalancer p ss in
  Running lb
    [("serving requests at 'localhost:" ++ port lb ++ "'" ++ newline)%string].

Definition backends : list string :=
  ["https://www.facebook.com"; "https://www.bing.com";
   "https://www.duckduckgo.com"; "https://www.google.com";
   "https://www.yahoo.com"]%string.

(** [func main()] *)
Definition main : process (LoadBalancer simpleServer) :=
  main_with backends "8000".

End SimpleServer.

Arguments mkSimpleServer {ReverseProxy} addr proxy.
Arguments addr {ReverseProxy} s.
Arguments proxy {ReverseProxy} s.

(** ** A target whose liveness is chosen freely

    [simpleServer] is always alive; pools with targets that are down are
    built from this second implementation of the interface. *)
Module Probe.

Record target : Type := mkTarget {
  name : string;
  up : bool
}.

#[export] Instance target_Server : Server unit unit target := {|
  Address t := name t;
  IsAlive t := up t;
  Serve _ rw _ := rw
|}.

Definition A : target := mkTarget "A" true.
Definition B : target := mkTarget "B" true.
Definition C : target := mkTarget "C" true.
Definition A_down : target := mkTarget "A" false.
Definition B_down : target := mkTarget "B" false.
Definition C_down : target := mkTarget "C" false.

(** Three pools. *)
Definition all_up : list target := [A; B; C].
Definition one_down : list target := [A; B; C_down].
Definition all_down : list target := [A_down; B_down].

(** A balancer on port 8000 whose cursor has reached [c], and one just
    built. *)
Definition balancer (c : Z) (pool : list target) : LoadBalancer target :=
  mkLB "8000" c pool.
Definition fresh (pool : list target) : LoadBalancer target :=
  NewLoadBalancer "8000" pool.

(** A stand-in for [url.Parse] that, like [net/url], rejects an address
    holding an ASCII control character and accepts the others as they
    are. *)
Fixpoint containsCTLByte (s : string) : bool :=
  match s with
  | EmptyString => false
  | String a rest =>
      (nat_of_ascii a <? 32)%nat || (nat_of_ascii a =? 127)%nat
      || containsCTLByte rest
  end.

Definition parse (a : string) : option string * option string :=
  if containsCTLByte a
  then (None, Some "net/url: invalid control character in URL"%string)
  else (Some a, None).

(** ["not a url \x00"] *)
Definition not_a_url : string :=
  ("not a url " ++ String (ascii_of_nat 0) EmptyString)%string.

End Probe.

(** ** Sample pools and stand-ins for the library calls *)
Module Sample.

Import Probe.

(** A pool with two targets down between live ones. *)
Definition two_down : list target := [A; B_down; C_down; C].

(** Stand-ins for [net/http/httputil]: a proxy is known by the URL it is
    bound to, and serving a request adds that URL to what the response
    writer holds. *)
Definition proxy_to : option string -> string := default EmptyString.
Definition serve_http (px : string) (rw : list string) (_ : unit)
  : list string := rw ++ [px].

(** A pool of two [simpleServer]s and three requests. *)
Definition a_example : simpleServer string :=
  mkSimpleServer "https://a.example" "https://a.example"%string.
Definition b_example : simpleServer string :=
  mkSimpleServer "https://b.example" "https://b.example"%string.
Definition three_requests : list (list string * unit) :=
  [([], tt); ([], tt); ([], tt)].

End Sample.

(** * Properties *)

(** ** Machine arithmetic *)

Lemma wrap_id z : in_range z -> wrap z = z.
Proof.
  unfold in_range, int_min, int_max, wrap. intros Hz.
  rewrite Z.mod_small; lia.
Qed.

Lemma wrap_in_range z : in_range (wrap z).
Proof.
  unfold in_range, int_min, int_max, wrap.
  pose proof (Z.mod_pos_bound (z + 2 ^ 63) (2 ^ 64)). lia.
Qed.

Lemma incr_small x : int_min <= x < int_max -> incr x = x + 1.
Proof. intros Hx. apply wrap_id. unfold in_range. lia. Qed.

Lemma int_min_neg : int_min < 0.
Proof. reflexivity. Qed.

(** Go's [%] is the mathematical remainder on a non-negative dividend. *)
Lemma rem_nonneg_mod c n : 0 <= c -> 0 < n -> Z.rem c n = c mod n.
Proof. intros Hc Hn. apply Z.rem_mod_nonneg; lia. Qed.

(** Incrementing commutes with the reduction to the [int] range. *)
Lemma incr_wrap x : incr (wrap x) = wrap (x + 1).
Proof.
  unfold incr, wrap.
  replace ((x + 2 ^ 63) mod 2 ^ 64 - 2 ^ 63 + 1 + 2 ^ 63)
    with ((x + 2 ^ 63) mod 2 ^ 64 + 1) by lia.
  rewrite Z.add_mod_idemp_l by lia. do 2 f_equal. lia.
Qed.

Lemma rem_zero_multiple x n : 0 < n -> Z.rem x n = 0 -> exists k, x = n * k.
Proof.
  intros Hn Hr. exists (x ÷ n).
  pose proof (Z.quot_rem' x n). lia.
Qed.

Lemma consecutive_multiples x n :
  0 < n -> Z.rem x n = 0 -> Z.rem (x + 1) n = 0 -> n = 1.
Proof.
  intros Hn [k1 H1]%rem_zero_multiple [k2 H2]%rem_zero_multiple; try done.
  assert (n * (k2 - k1) = 1) as H by lia.
  apply Z.eq_mul_1_nonneg in H; lia.
Qed.

(** On a dividend that is not positive it is never positive. *)
Lemma rem_neg_zero x n : x <= 0 -> 0 < n -> 0 <= Z.rem x n -> Z.rem x n = 0.
Proof.
  intros Hx Hn Hr. pose proof (Z.rem_bound_pos_neg x n Hn Hx). lia.
Qed.

(** A pass of [n] consecutive cursor values, wrap-around included, whose
    indices are all valid meets every index of a pool of size [n]. *)
Lemma residues_covered (c n a : Z) :
  in_range c -> 0 < n -> 0 <= a < n ->
  (forall j, 0 <= j < n -> 0 <= Z.rem (wrap (c + j)) n) ->
  exists j, 0 <= j < n /\ Z.rem (wrap (c + j)) n = a.
Proof.
  intros Hc Hn Ha Hidx.
  pose proof Hc as [Hlo Hhi].
  destruct (Z.neg_nonneg_cases c) as [Hneg|Hpos].
  - (* negative cursor *)
    pose proof (Hidx 0 ltac:(lia)) as H0.
    rewrite Z.add_0_r, wrap_id in H0 by done.
    apply rem_neg_zero in H0; [|lia|done].
    destruct (Z.eq_dec n 1) as [->|Hn1].
    + exists 0. rewrite Z.add_0_r, wrap_id by done. split; [lia|]. lia.
    + pose proof (Hidx 1 ltac:(lia)) as H1.
      rewrite wrap_id in H1 by (unfold in_range, int_min, int_max in *; lia).
      apply rem_neg_zero in H1; [|lia|done].
      pose proof (consecutive_multiples c n Hn H0 H1). lia.
  - destruct (Z_le_gt_dec (c + (n - 1)) int_max) as [Hfit|Hover].
    + (* the whole pass stays in range *)
      exists ((a - c) mod n).
      pose proof (Z.mod_pos_bound (a - c) n Hn) as Hb.
      split; [lia|].
      rewrite wrap_id by (unfold in_range, int_min, int_max in *; lia).
      rewrite Z.rem_mod_nonneg by lia.
      rewrite Zplus_mod_idemp_r.
      replace (c + (a - c)) with a by lia. apply Z.mod_small. lia.
    + (* the pass crosses the largest int *)
      pose proof (Hidx (int_max - c + 1) ltac:(lia)) as Hmin.
      replace (c + (int_max - c + 1)) with (int_max + 1) in Hmin by lia.
      change (wrap (int_max + 1)) with int_min in Hmin.
      apply rem_neg_zero in Hmin; [|unfold int_min; lia|done].
      destruct (Z_lt_le_dec (int_max - c + 2) n) as [Hmore|Hlast].
      * pose proof (Hidx (int_max - c + 2) ltac:(lia)) as Hmin1.
        replace (c + (int_max - c + 2)) with (int_max + 2) in Hmin1 by lia.
        change (wrap (int_max + 2)) with (int_min + 1) in Hmin1.
        apply rem_neg_zero in Hmin1; [|unfold int_min; lia|done].
        pose proof (consecutive_multiples int_min n Hn Hmin Hmin1). lia.
      * assert (n = int_max - c + 2) as Hn' by lia.
        destruct (Z.eq_dec a 0) as [->|Ha0].
        -- exists (int_max - c + 1). split; [lia|].
           replace (c + (int_max - c + 1)) with (int_max + 1) by lia.
           exact Hmin.
        -- exists (a - 1). split; [lia|].
           rewrite wrap_id by (unfold in_range, int_min, int_max in *; lia).
           rewrite Z.rem_mod_nonneg by lia.
           destruct (rem_zero_multiple _ _ Hn Hmin) as [k Hk].
           replace (c + (a - 1)) with (a + (- k - 1) * n)
             by (unfold int_min, int_max in *; lia).
           rewrite Z.mod_add by lia. apply Z.mod_small. lia.
Qed.

Section Selection.

Context {Request ResponseWriter T : Type}.
Context `{!Server Request ResponseWriter T}.

Implicit Types (lb : LoadBalancer T) (s t : T).

Lemma at_cursor_self lb : at_cursor lb (roundRobinCount lb) = lb.
Proof. by destruct lb. Qed.

Lemma bump_at_cursor lb : bump lb = at_cursor lb (incr (roundRobinCount lb)).
Proof. reflexivity. Qed.

Lemma at_cursor_idem lb c c' : at_cursor (at_cursor lb c) c' = at_cursor lb c'.
Proof. reflexivity. Qed.

Lemma len_at_cursor lb c : len (at_cursor lb c) = len lb.
Proof. reflexivity. Qed.


(** *** The indexing expression *)

Lemma candidate_inl lb s :
  candidate lb = inl s <->
  len lb <> 0 /\ 0 <= Z.rem (roundRobinCount lb) (len lb) /\
  servers lb !! Z.to_nat (Z.rem (roundRobinCount lb) (len lb)) = Some s.
Proof.
  unfold candidate.
  destruct (Z.eqb_spec (len lb) 0) as [Hn|Hn].
  { split; [discriminate | intros [? _]; done]. }
  destruct (Z.ltb_spec (Z.rem (roundRobinCount lb) (len lb)) 0) as [Hi|Hi].
  { split; [discriminate | intros (_ & ? & _); lia]. }
  destruct (servers lb !! _) as [s'|] eqn:Hs.
  - split; [intros [= ->]; done | intros (_ & _ & [= ->]); done].
  - split; [discriminate | intros (_ & _ & ?); done].
Qed.

Lemma candidate_elem lb s : candidate lb = inl s -> s ∈ servers lb.
Proof.
  rewrite candidate_inl. intros (_ & _ & Hs).
  by eapply list_elem_of_lookup_2.
Qed.

(** With a non-negative cursor and a non-empty pool the index is
    [cursor mod len] and it designates a target. *)
Lemma candidate_nonneg lb :
  0 <= roundRobinCount lb -> servers lb <> [] ->
  exists s,
    candidate lb = inl s /\
    servers lb !! Z.to_nat (roundRobinCount lb mod len lb) = Some s.
Proof.
  intros Hc Hne.
  assert (0 < len lb) as Hn.
  { unfold len. destruct (servers lb); [done | simpl; lia]. }
  pose proof (Z.mod_pos_bound (roundRobinCount lb) (len lb) Hn) as Hb.
  destruct (lookup_lt_is_Some_2 (servers lb)
              (Z.to_nat (roundRobinCount lb mod len lb))) as [s Hs].
  { unfold len in *. lia. }
  exists s. split; [|done].
  apply candidate_inl. rewrite rem_nonneg_mod by lia.
  repeat split; [lia | lia | done].
Qed.

(** *** The skip loop *)

Lemma skip_loop_alive budget s lb :
  IsAlive s = true -> skip_loop budget s lb = Returned s lb.
Proof. intros Hs. destruct budget; simpl; by rewrite Hs. Qed.

Lemma skip_loop_dead budget s lb :
  IsAlive s = false ->
  skip_loop (S budget) s lb =
    match candidate (bump lb) with
    | inl s' => skip_loop budget s' (bump lb)
    | inr p => Panicked p (bump lb)
    end.
Proof. intros Hs. simpl. by rewrite Hs. Qed.

(** What the loop hands back is alive, comes from the pool when the
    entry candidate does, and only the cursor has moved. *)
Lemma skip_loop_returned budget : forall s lb t lb',
  skip_loop budget s lb = Returned t lb' ->
  IsAlive t = true /\ (s ∈ servers lb -> t ∈ servers lb) /\
  port lb' = port lb /\ servers lb' = servers lb.
Proof.
  induction budget as [|b IH]; intros s lb t lb'; simpl;
    destruct (IsAlive s) eqn:Hs; try discriminate.
  - intros [= -> ->]. done.
  - intros [= -> ->]. done.
  - destruct (candidate (bump lb)) as [s'|p] eqn:Hc; [|discriminate].
    intros Hr. destruct (IH _ _ _ _ Hr) as (Ht & Hin & Hp & Hss).
    repeat split; try done.
    intros _. apply Hin. by apply candidate_elem.
Qed.

Lemma getNextAvailableServer_returned budget lb t lb' :
  getNextAvailableServer budget lb = Returned t lb' ->
  IsAlive t = true /\ t ∈ servers lb /\
  port lb' = port lb /\ servers lb' = servers lb.
Proof.
  unfold getNextAvailableServer.
  destruct (candidate lb) as [s|p] eqn:Hc; [|discriminate].
  destruct (skip_loop budget s lb) as [t' lb1| |] eqn:Hl; try discriminate.
  intros [= -> <-].
  destruct (skip_loop_returned _ _ _ _ _ Hl) as (Ht & Hin & Hp & Hss).
  repeat split; try done.
  apply Hin. by apply candidate_elem.
Qed.

(** A larger budget does not change the result of a run that ended. *)
Lemma skip_loop_budget_mono b : forall b' s lb,
  (b <= b')%nat -> skip_loop b s lb <> Spinning ->
  skip_loop b' s lb = skip_loop b s lb.
Proof.
  induction b as [|b IH]; intros b' s lb Hle; simpl.
  - destruct (IsAlive s) eqn:Hs; [|done].
    intros _. by apply skip_loop_alive.
  - destruct b' as [|b']; [lia|]. simpl.
    destruct (IsAlive s); [done|].
    destruct (candidate (bump lb)); [|done].
    apply IH. lia.
Qed.

Lemma getNextAvailableServer_budget_mono b b' lb :
  (b <= b')%nat -> getNextAvailableServer b lb <> Spinning ->
  getNextAvailableServer b' lb = getNextAvailableServer b lb.
Proof.
  unfold getNextAvailableServer. intros Hle.
  destruct (candidate lb) as [s|p]; [|done].
  intros Hn. rewrite (skip_loop_budget_mono b b'); [done | done |].
  intros Hs. by rewrite Hs in Hn.
Qed.

End Selection.

(** ** The code against the algorithm of the specification *)

Section Refinement.

Context {Request ResponseWriter T : Type}.
Context `{!Server Request ResponseWriter T}.

Implicit Types (lb : LoadBalancer T) (s t : T).




End Refinement.

(** ** Calls made while the cursor is in range *)

Section InRange.

Context {Request ResponseWriter T : Type}.
Context `{!Server Request ResponseWriter T}.

Implicit Types (lb : LoadBalancer T) (s t : T) (w : list T).

Lemma alive_or_down s : {alive s} + {down s}.
Proof. unfold alive, down. destruct (IsAlive s); [by left | by right]. Qed.

Lemma down_not_alive s : down s <-> ~ alive s.
Proof. unfold alive, down. destruct (IsAlive s); naive_solver. Qed.

Lemma alive_not_down s : alive s <-> ~ down s.
Proof. unfold alive, down. destruct (IsAlive s); naive_solver. Qed.

(** *** One call *)

Lemma call_alive budget lb s :
  candidate lb = inl s -> alive s ->
  getNextAvailableServer budget lb = Returned s (bump lb).
Proof.
  intros Hc Hs. unfold getNextAvailableServer.
  by rewrite Hc, skip_loop_alive.
Qed.

Lemma call_down budget lb s :
  candidate lb = inl s -> down s ->
  getNextAvailableServer (S budget) lb =
  getNextAvailableServer budget (bump lb).
Proof.
  intros Hc Hs. unfold getNextAvailableServer.
  rewrite Hc, skip_loop_dead by done.
  by destruct (candidate (bump lb)).
Qed.

Lemma call_down_0 lb s :
  candidate lb = inl s -> down s ->
  getNextAvailableServer 0 lb = Spinning.
Proof.
  intros Hc Hs. unfold getNextAvailableServer. rewrite Hc. simpl.
  unfold down in Hs. by rewrite Hs.
Qed.

Lemma bump_in_range lb :
  0 <= roundRobinCount lb < int_max ->
  bump lb = at_cursor lb (roundRobinCount lb + 1).
Proof.
  intros Hc. rewrite bump_at_cursor, incr_small; [done|].
  pose proof int_min_neg. lia.
Qed.

Lemma slot_0 lb : slot lb 0 = servers lb !! position lb.
Proof. unfold slot, position. by rewrite Z.add_0_r. Qed.

Lemma slot_succ lb j :
  slot (at_cursor lb (roundRobinCount lb + 1)) j = slot lb (S j).
Proof.
  unfold slot. simpl. rewrite len_at_cursor. do 3 f_equal. lia.
Qed.

Lemma slot_is_Some lb j s : slot lb j = Some s -> 0 < len lb.
Proof.
  unfold slot, len. intros Hs.
  apply lookup_lt_Some in Hs. lia.
Qed.

(** With a non-negative cursor the first candidate of a call is the
    target under the cursor. *)
Lemma candidate_slot lb s :
  0 <= roundRobinCount lb -> slot lb 0 = Some s -> candidate lb = inl s.
Proof.
  intros Hc Hs. pose proof (slot_is_Some _ _ _ Hs) as Hn.
  destruct (candidate_nonneg lb Hc) as (s' & Hc' & Hl).
  { intros Hnil. unfold len in Hn. rewrite Hnil in Hn. simpl in Hn. lia. }
  rewrite slot_0 in Hs. unfold position in Hs. congruence.
Qed.

(** *** Successive calls *)

Lemma calls_budget_mono b b' m : forall lb (r : list T) lb',
  (b <= b')%nat ->
  calls b m lb = Returned r lb' -> calls b' m lb = Returned r lb'.
Proof.
  induction m as [|m IH]; intros lb r lb' Hle; simpl; [done|].
  destruct (getNextAvailableServer b lb) as [s lb1| |] eqn:Hg;
    try discriminate.
  rewrite (getNextAvailableServer_budget_mono b b') by (done || congruence).
  rewrite Hg.
  destruct (calls b m lb1) as [ss lb2| |] eqn:Hr; try discriminate.
  by rewrite (IH _ _ _ Hle Hr).
Qed.

Lemma calls_app budget m1 m2 lb (r1 r2 : list T) lb1 lb2 :
  calls budget m1 lb = Returned r1 lb1 ->
  calls budget m2 lb1 = Returned r2 lb2 ->
  calls budget (m1 + m2) lb = Returned (r1 ++ r2) lb2.
Proof.
  revert lb r1. induction m1 as [|m1 IH]; intros lb r1; simpl.
  - by intros [= <- <-].
  - destruct (getNextAvailableServer budget lb) as [s lb'| |];
      try discriminate.
    destruct (calls budget m1 lb') as [ss lb''| |] eqn:Hr; try discriminate.
    intros [= <- <-] H2. by rewrite (IH _ _ Hr H2).
Qed.

Lemma calls_app_panicked budget m1 m2 lb (r1 : list T) lb1 p lb2 :
  calls budget m1 lb = Returned r1 lb1 ->
  calls budget m2 lb1 = Panicked p lb2 ->
  calls budget (m1 + m2) lb = Panicked p lb2.
Proof.
  revert lb r1. induction m1 as [|m1 IH]; intros lb r1; simpl.
  - by intros [= <- <-].
  - destruct (getNextAvailableServer budget lb) as [s lb'| |];
      try discriminate.
    destruct (calls budget m1 lb') as [ss lb''| |] eqn:Hr; try discriminate.
    intros [= <- <-] H2. by rewrite (IH _ _ Hr H2).
Qed.

(** The calls that consume a stretch [w] of the rotation starting under
    the cursor return the live targets of [w], in order; each call skips
    the targets of [w] that are down on its way. When [w] ends on a live
    target the cursor ends just past [w]. The last target of [w] may sit
    under the largest [int]: the increment that follows its selection is
    the first to wrap around. *)
Lemma calls_window w : forall lb budget,
  0 <= roundRobinCount lb <= int_max ->
  roundRobinCount lb + Z.of_nat (length w) <= int_max + 1 ->
  (forall j s, w !! j = Some s -> slot lb j = Some s) ->
  (length (filter down w) <= budget)%nat ->
  exists c',
    calls budget (length (filter alive w)) lb =
      Returned (filter alive w) (at_cursor lb (wrap c')) /\
    roundRobinCount lb <= c' <= roundRobinCount lb + Z.of_nat (length w) /\
    (forall y, last w = Some y -> alive y ->
       c' = roundRobinCount lb + Z.of_nat (length w)).
Proof.
  induction w as [|x w IH]; intros lb budget Hc Hmax Hw Hb.
  { exists (roundRobinCount lb). simpl.
    rewrite wrap_id, at_cursor_self
      by (pose proof int_min_neg; unfold in_range; lia).
    split; [done | split; [lia | intros y Hy; discriminate]]. }
  simpl length in Hmax.
  assert (candidate lb = inl x) as Hx
    by (apply candidate_slot; [lia | by apply (Hw 0%nat)]).
  pose proof (bump_at_cursor lb) as Hbump. unfold incr in Hbump.
  destruct (Z_lt_le_dec (roundRobinCount lb) int_max) as [Hlt|Hge].
  - (* the increment after [x] stays in range *)
    rewrite (wrap_id (roundRobinCount lb + 1)) in Hbump
      by (pose proof int_min_neg; unfold in_range; lia).
    assert (forall j s, w !! j = Some s ->
              slot (at_cursor lb (roundRobinCount lb + 1)) j = Some s) as Hw'.
    { intros j s Hj. rewrite slot_succ. by apply (Hw (S j)). }
    destruct (alive_or_down x) as [Hax|Hdx].
    + rewrite filter_cons_True by done.
      rewrite filter_cons_False in Hb by (by apply alive_not_down).
      destruct (IH (at_cursor lb (roundRobinCount lb + 1)) budget)
        as (c' & Hcalls & Hbound & Hlast); simpl; try (done || lia).
      simpl in Hbound, Hlast.
      exists c'. simpl. rewrite (call_alive _ _ _ Hx Hax), Hbump, Hcalls.
      rewrite at_cursor_idem. split; [done | split; [lia|]].
      intros y Hy Hay. rewrite last_cons in Hy.
      destruct (last w) as [z|] eqn:Hz.
      * injection Hy as ->. rewrite (Hlast y eq_refl Hay). lia.
      * apply last_None in Hz. subst w. simpl in Hbound. simpl. lia.
    + rewrite filter_cons_False by (by apply down_not_alive).
      rewrite filter_cons_True in Hb by done. simpl in Hb.
      destruct budget as [|b]; [lia|].
      destruct (IH (at_cursor lb (roundRobinCount lb + 1)) b)
        as (c' & Hcalls & Hbound & Hlast); simpl; try (done || lia).
      simpl in Hbound, Hlast. rewrite at_cursor_idem in Hcalls.
      assert (forall y, last (x :: w) = Some y -> alive y -> last w = Some y)
        as Hlast_w.
      { intros y Hy Hay. rewrite last_cons in Hy.
        destruct (last w) as [z|]; [done|].
        injection Hy as ->. by apply alive_not_down in Hay. }
      destruct (length (filter alive w)) as [|m] eqn:Hm.
      * exists (roundRobinCount lb). simpl.
        rewrite wrap_id, at_cursor_self
          by (pose proof int_min_neg; unfold in_range; lia).
        apply nil_length_inv in Hm. rewrite Hm.
        split; [done | split; [lia|]].
        intros y Hy Hay. apply Hlast_w in Hy; [|done].
        apply last_Some_elem_of in Hy.
        by apply (filter_nil_not_elem_of alive w y) in Hm.
      * exists c'. simpl. simpl in Hcalls.
        rewrite (call_down _ _ _ Hx Hdx), Hbump.
        destruct (getNextAvailableServer b _) as [s1 lb1| |] eqn:Hg;
          try discriminate.
        destruct (calls b m lb1) as [ss lb2| |] eqn:Hr; try discriminate.
        rewrite (calls_budget_mono b (S b) m _ _ _ (Nat.le_succ_diag_r b) Hr).
        split; [done | split; [lia|]].
        intros y Hy Hay. rewrite (Hlast y (Hlast_w y Hy Hay) Hay). lia.
  - (* [x] sits under the largest [int] and is the last of the stretch *)
    assert (w = []) as -> by (apply nil_length_inv; lia).
    destruct (alive_or_down x) as [Hax|Hdx].
    + rewrite filter_cons_True by done.
      exists (roundRobinCount lb + 1). simpl.
      rewrite (call_alive _ _ _ Hx Hax), Hbump.
      split; [done | split; [lia | intros; lia]].
    + rewrite filter_cons_False by (by apply down_not_alive).
      exists (roundRobinCount lb). simpl.
      rewrite wrap_id, at_cursor_self
        by (pose proof int_min_neg; unfold in_range; lia).
      split; [done | split; [lia|]].
      intros y [= <-] Hay. by apply alive_not_down in Hay.
Qed.

End InRange.

(** ** Rotation through the pool *)

Section Rotation.

Context {Request ResponseWriter T : Type}.
Context `{!Server Request ResponseWriter T}.

Implicit Types (lb : LoadBalancer T) (s t : T) (l w : list T).

Lemma rotate_perm (k : nat) l : rotate k l ≡ₚ l.
Proof.
  unfold rotate.
  rewrite Permutation_app_comm. by rewrite take_drop.
Qed.

Lemma filter_all (P : T -> Prop) `{!forall x, Decision (P x)} l :
  Forall P l -> filter P l = l.
Proof.
  induction 1 as [|x l Hx _ IH]; [done|].
  by rewrite filter_cons_True, IH.
Qed.

Lemma filter_none (P : T -> Prop) `{!forall x, Decision (P x)} l :
  Forall (fun x => ~ P x) l -> filter P l = [].
Proof.
  induction 1 as [|x l Hx _ IH]; [done|].
  by rewrite filter_cons_False, IH.
Qed.

Lemma length_filter_rotate (P : T -> Prop) `{!forall x, Decision (P x)} k l :
  length (filter P (rotate k l)) = length (filter P l).
Proof. by rewrite (rotate_perm k l). Qed.

(** The rotation of the pool that starts under the cursor lists the
    targets in the order in which successive candidates meet them. *)
Lemma rotation_slot lb j s :
  rotate (position lb) (servers lb) !! j = Some s -> slot lb j = Some s.
Proof.
  intros Hj. pose proof (lookup_lt_Some _ _ _ Hj) as Hlt.
  rewrite length_rotate in Hlt.
  rewrite lookup_rotate_r in Hj by done.
  unfold slot. rewrite <- Hj. f_equal.
  unfold rotate_nat_add, position, len.
  assert (0 < Z.of_nat (length (servers lb))) as Hn by lia.
  rewrite Z2Nat.id by (apply Z.mod_pos_bound; done).
  by rewrite Zplus_mod_idemp_l.
Qed.

Lemma slot_of_elem lb u :
  u ∈ servers lb ->
  exists j, (j < length (servers lb))%nat /\ slot lb j = Some u.
Proof.
  intros Hu. rewrite <- (elem_of_rotate _ (position lb)) in Hu.
  apply list_elem_of_lookup in Hu as [j Hj].
  exists j. split.
  - apply lookup_lt_Some in Hj. by rewrite length_rotate in Hj.
  - by apply rotation_slot.
Qed.

Lemma position_shift lb k :
  position (at_cursor lb (roundRobinCount lb + Z.of_nat k * len lb)) =
  position lb.
Proof.
  unfold position. simpl. rewrite len_at_cursor.
  destruct (Z.eq_dec (len lb) 0) as [Hz|Hz].
  - rewrite Hz. by rewrite !Z.mod_0_r, Z.mul_0_r, Z.add_0_r.
  - by rewrite Z.mod_add.
Qed.

(** One pass over the pool: as many calls as there are live targets
    return the live targets in rotation order, starting under the
    cursor. When the pass ends on a live target the cursor has advanced by
    the size of the pool. *)
Lemma calls_pass lb budget :
  0 <= roundRobinCount lb <= int_max ->
  roundRobinCount lb + len lb <= int_max + 1 ->
  (length (filter down (servers lb)) <= budget)%nat ->
  exists c',
    calls budget (length (filter alive (servers lb))) lb =
      Returned (filter alive (rotate (position lb) (servers lb)))
               (at_cursor lb (wrap c')) /\
    roundRobinCount lb <= c' <= roundRobinCount lb + len lb /\
    (forall y, last (rotate (position lb) (servers lb)) = Some y -> alive y ->
       c' = roundRobinCount lb + len lb).
Proof.
  intros Hc Hmax Hb.
  destruct (calls_window (rotate (position lb) (servers lb)) lb budget)
    as (c' & Hcalls & Hbound & Hlast).
  - done.
  - by rewrite length_rotate.
  - apply rotation_slot.
  - by rewrite length_filter_rotate.
  - rewrite length_rotate, length_filter_rotate in *.
    exists c'. split; [done | split; [done|]].
    intros y Hy Hay. by rewrite (Hlast y Hy Hay).
Qed.

(** [q] passes over a pool, each of which ends on a live target. Only
    the increment that ends the last pass may wrap around. *)
Lemma calls_rounds q : forall lb budget,
  (exists y, last (rotate (position lb) (servers lb)) = Some y /\ alive y) ->
  (length (filter down (servers lb)) <= budget)%nat ->
  0 <= roundRobinCount lb <= int_max ->
  roundRobinCount lb + Z.of_nat q * len lb <= int_max + 1 ->
  calls budget (q * length (filter alive (servers lb))) lb =
    Returned
      (mjoin (replicate q (filter alive (rotate (position lb) (servers lb)))))
      (at_cursor lb (wrap (roundRobinCount lb + Z.of_nat q * len lb))).
Proof.
  induction q as [|q IH]; intros lb budget (y & Hy & Hay) Hb Hc Hmax.
  { simpl. rewrite Z.add_0_r, wrap_id, at_cursor_self; [done|].
    pose proof int_min_neg. unfold in_range. lia. }
  assert (0 < len lb) as Hn.
  { unfold len. apply last_Some_elem_of, elem_of_rotate in Hy.
    destruct (servers lb); [by apply elem_of_nil in Hy | simpl; lia]. }
  destruct (calls_pass lb budget) as (c' & Hcalls & _ & Hc'); [done | nia | done |].
  rewrite (Hc' y Hy Hay) in Hcalls.
  destruct q as [|q].
  { rewrite Nat.mul_1_l. change (Z.of_nat 1) with 1. rewrite Z.mul_1_l.
    simpl. by rewrite app_nil_r. }
  rewrite (wrap_id (roundRobinCount lb + len lb)) in Hcalls
    by (pose proof int_min_neg; unfold in_range; nia).
  assert (position (at_cursor lb (roundRobinCount lb + len lb)) = position lb)
    as Hpos.
  { rewrite <- (position_shift lb 1). do 2 f_equal. lia. }
  pose proof (IH (at_cursor lb (roundRobinCount lb + len lb)) budget) as IH'.
  rewrite Hpos, len_at_cursor in IH'. simpl roundRobinCount in IH'.
  simpl servers in IH'.
  replace (S (S q) * length (filter alive (servers lb)))%nat
    with (length (filter alive (servers lb))
          + S q * length (filter alive (servers lb)))%nat by lia.
  rewrite (calls_app _ _ _ _ _ _ _ _ Hcalls
             (IH' ltac:(by exists y) Hb ltac:(nia) ltac:(nia))).
  rewrite at_cursor_idem. do 3 f_equal. lia.
Qed.

(** When every target is alive a pass ends on a live target and returns
    the whole rotation. *)
Lemma all_alive_last lb :
  servers lb <> [] -> Forall alive (servers lb) ->
  exists y, last (rotate (position lb) (servers lb)) = Some y /\ alive y.
Proof.
  intros Hne Hall.
  destruct (last (rotate (position lb) (servers lb))) as [y|] eqn:Hy.
  - exists y. split; [done|].
    apply last_Some_elem_of, elem_of_rotate in Hy.
    by eapply Forall_forall in Hall.
  - apply last_None in Hy. apply (f_equal length) in Hy.
    rewrite length_rotate in Hy. by destruct (servers lb).
Qed.

Lemma calls_rounds_all_alive q lb budget :
  servers lb <> [] ->
  Forall alive (servers lb) ->
  0 <= roundRobinCount lb <= int_max ->
  roundRobinCount lb + Z.of_nat q * len lb <= int_max + 1 ->
  calls budget (q * length (servers lb)) lb =
    Returned (mjoin (replicate q (rotate (position lb) (servers lb))))
             (at_cursor lb (wrap (roundRobinCount lb + Z.of_nat q * len lb))).
Proof.
  intros Hne Hall Hc Hmax.
  pose proof (calls_rounds q lb budget (all_alive_last lb Hne Hall)) as Hr.
  rewrite (filter_all alive (servers lb)) in Hr by done.
  rewrite (filter_all alive (rotate _ _)) in Hr
    by (apply Forall_forall; intros x Hx%elem_of_rotate;
        by eapply Forall_forall in Hall).
  apply Hr; [|done|done].
  rewrite filter_none; [simpl; lia|].
  eapply Forall_impl; [exact Hall|]. intros x. apply alive_not_down.
Qed.

Lemma length_filter_rounds (P : T -> Prop) `{!forall x, Decision (P x)} q k l :
  length (filter P (mjoin (replicate q (rotate k l)))) =
  (q * length (filter P l))%nat.
Proof.
  induction q as [|q IH]; [done|].
  simpl. rewrite filter_app, length_app, IH, length_filter_rotate. done.
Qed.

End Rotation.

(** ** Round-robin fairness (C2) *)

Section Fairness.

Context {Request ResponseWriter T : Type}.
Context `{!Server Request ResponseWriter T}.

Implicit Types (lb : LoadBalancer T) (s t : T) (l w : list T).

Lemma rotate_0 l : rotate 0 l = l.
Proof.
  unfold rotate. rewrite Nat.Div0.mod_0_l. simpl. by rewrite app_nil_r.
Qed.

(** A freshly built balancer is at position 0. *)
Lemma position_fresh p l : position (NewLoadBalancer p l) = 0%nat.
Proof. unfold position. simpl. by rewrite Zmod_0_l. Qed.

(** C2, amended. In a pool of N >= 1 targets that are all alive, whose
    cursor is a non-negative [int] and does not pass the largest [int]
    before the last of the calls (cursor + M <= MaxInt64 + 1), M = q*N
    successive calls all return; the targets returned are [q] repetitions
    of the insertion order entered at the position of the cursor (the
    insertion order itself when the cursor is at position 0, as in a
    freshly built balancer), and every target, indeed every class [P] of
    targets, is returned exactly q = M/N times as often as it occurs in
    the pool. *)
Theorem round_robin_fairness (budget q : nat) lb :
  servers lb <> [] ->
  Forall alive (servers lb) ->
  0 <= roundRobinCount lb <= int_max ->
  roundRobinCount lb + Z.of_nat (q * length (servers lb)) <= int_max + 1 ->
  exists returned lb',
    calls budget (q * length (servers lb)) lb = Returned returned lb' /\
    returned = mjoin (replicate q (rotate (position lb) (servers lb))) /\
    (position lb = 0%nat -> returned = mjoin (replicate q (servers lb))) /\
    (forall (P : T -> Prop) (dec : forall x, Decision (P x)),
        length (filter P returned) =
        (q * length (filter P (servers lb)))%nat).
Proof.
  intros Hne Hall Hc Hmax.
  eexists _, _. split; [|split; [reflexivity | split]].
  - apply calls_rounds_all_alive; [done | done | done |]. unfold len. lia.
  - intros ->. by rewrite rotate_0.
  - intros P dec. apply length_filter_rounds.
Qed.

End Fairness.

(** ** One call in range: the first live target past the cursor *)

Section FirstLive.

Context {Request ResponseWriter T : Type}.
Context `{!Server Request ResponseWriter T}.

Implicit Types (lb : LoadBalancer T) (s t u : T) (l w : list T).

Lemma slot_0_is_Some lb j u :
  slot lb j = Some u -> is_Some (slot lb 0).
Proof.
  intros Hn%slot_is_Some. rewrite slot_0.
  apply lookup_lt_is_Some_2. unfold position.
  pose proof (Z.mod_pos_bound (roundRobinCount lb) (len lb) Hn).
  unfold len in *. lia.
Qed.

(** If a live target sits [j0] places past a non-negative cursor and the
    cursor can advance that far, a call that ends (or has a budget of
    [j0] skips) returns the first live target past the cursor, [k <= j0]
    places away, after [k] skips, and leaves the cursor [k + 1] further;
    only this last increment may wrap around. *)
Lemma call_finds j0 : forall lb budget u,
  0 <= roundRobinCount lb ->
  roundRobinCount lb + Z.of_nat j0 <= int_max ->
  slot lb j0 = Some u -> alive u ->
  (j0 <= budget)%nat \/ getNextAvailableServer budget lb <> Spinning ->
  exists (k : nat) t,
    (k <= j0)%nat /\ (k <= budget)%nat /\
    slot lb k = Some t /\ alive t /\
    (forall j, (j < k)%nat -> exists d, slot lb j = Some d /\ down d) /\
    getNextAvailableServer budget lb =
      Returned t (at_cursor lb (wrap (roundRobinCount lb + Z.of_nat k + 1))).
Proof.
  induction j0 as [|j0 IH]; intros lb budget u Hc Hmax Hu Hau Hend;
    destruct (slot_0_is_Some _ _ _ Hu) as [s0 Hs0];
    pose proof (candidate_slot _ _ Hc Hs0) as Hcand;
    destruct (alive_or_down s0) as [Ha|Hd].
  - exists 0%nat, s0. rewrite (call_alive _ _ _ Hcand Ha), bump_at_cursor.
    split; [lia | split; [lia | split; [done | split; [done | split]]]].
    + intros j Hj. lia.
    + simpl. by rewrite Z.add_0_r.
  - rewrite Hu in Hs0. injection Hs0 as ->. by apply alive_not_down in Hau.
  - exists 0%nat, s0. rewrite (call_alive _ _ _ Hcand Ha), bump_at_cursor.
    split; [lia | split; [lia | split; [done | split; [done | split]]]].
    + intros j Hj. lia.
    + simpl. by rewrite Z.add_0_r.
  - destruct budget as [|b].
    { rewrite (call_down_0 _ _ Hcand Hd) in Hend. destruct Hend; [lia | done]. }
    rewrite (call_down _ _ _ Hcand Hd), bump_in_range in * by lia.
    destruct (IH (at_cursor lb (roundRobinCount lb + 1)) b u)
      as (k & t & Hk & Hkb & Ht & Hat & Hdown & Hret).
    + simpl. lia.
    + simpl. lia.
    + by rewrite slot_succ.
    + done.
    + destruct Hend as [Hle|Hns]; [left; lia | by right].
    + exists (S k), t. rewrite slot_succ in Ht.
      split; [lia | split; [lia | split; [done | split; [done | split]]]].
      * intros [|j] Hj; [by exists s0|].
        destruct (Hdown j ltac:(lia)) as (d & Hsd & Hdd).
        exists d. by rewrite slot_succ in Hsd.
      * rewrite Hret. simpl. unfold at_cursor. simpl. do 3 f_equal. lia.
Qed.

(** A call that returns from a non-negative cursor at least a pool size
    below the largest [int] has advanced the cursor by at least one and at
    most the pool size. *)
Lemma call_advance budget lb t lb' :
  0 <= roundRobinCount lb ->
  roundRobinCount lb + len lb <= int_max ->
  getNextAvailableServer budget lb = Returned t lb' ->
  roundRobinCount lb < roundRobinCount lb' <= roundRobinCount lb + len lb.
Proof.
  intros Hc Hmax Hret.
  destruct (getNextAvailableServer_returned _ _ _ _ Hret) as (Ht & Hin & _).
  destruct (slot_of_elem lb t Hin) as (j0 & Hj0 & Hslot).
  destruct (call_finds j0 lb budget t) as (k & t' & Hk & _ & _ & _ & _ & Hret');
    try done.
  { unfold len in Hmax. lia. }
  { right. by rewrite Hret. }
  rewrite Hret in Hret'. injection Hret' as _ ->. simpl.
  rewrite wrap_id
    by (pose proof int_min_neg; unfold in_range, len in *; lia).
  unfold len in *. lia.
Qed.

(** With a live target in the pool and a cursor that one pass does not
    take beyond the largest [int], [len - 1] executions of the loop body
    are enough for the call to return. *)
Lemma call_returns budget lb u :
  0 <= roundRobinCount lb ->
  roundRobinCount lb + len lb <= int_max + 1 ->
  u ∈ servers lb -> alive u ->
  (length (servers lb) - 1 <= budget)%nat ->
  exists t lb',
    getNextAvailableServer budget lb = Returned t lb' /\
    getNextAvailableServer (length (servers lb) - 1) lb = Returned t lb'.
Proof.
  intros Hc Hmax Hin Hu Hb.
  destruct (slot_of_elem lb u Hin) as (j0 & Hj0 & Hslot).
  assert (roundRobinCount lb + Z.of_nat j0 <= int_max) as Hj
    by (unfold len in Hmax; lia).
  destruct (call_finds j0 lb (length (servers lb) - 1) u)
    as (k & t & Hk & _ & _ & _ & _ & Hret); try done.
  { left. lia. }
  exists t, (at_cursor lb (wrap (roundRobinCount lb + Z.of_nat k + 1))).
  split; [|done].
  rewrite (getNextAvailableServer_budget_mono (length (servers lb) - 1) budget);
    [done | done | by rewrite Hret].
Qed.

(** *** No panic while the cursor is in range *)

Lemma skip_loop_no_panic budget : forall lb s p lb',
  0 <= roundRobinCount lb ->
  roundRobinCount lb + Z.of_nat budget <= int_max ->
  servers lb <> [] ->
  skip_loop budget s lb <> Panicked p lb'.
Proof.
  induction budget as [|b IH]; intros lb s p lb' Hc Hmax Hne; simpl;
    destruct (IsAlive s); try done.
  rewrite bump_in_range by lia.
  destruct (candidate_nonneg (at_cursor lb (roundRobinCount lb + 1)))
    as (s' & -> & _); [simpl; lia | done |].
  apply IH; simpl; (done || lia).
Qed.

Lemma call_no_panic budget lb p lb' :
  0 <= roundRobinCount lb ->
  roundRobinCount lb + Z.of_nat budget <= int_max ->
  servers lb <> [] ->
  getNextAvailableServer budget lb <> Panicked p lb'.
Proof.
  intros Hc Hmax Hne. unfold getNextAvailableServer.
  destruct (candidate_nonneg lb Hc Hne) as (s & -> & _).
  pose proof (skip_loop_no_panic budget lb s p lb' Hc Hmax Hne).
  by destruct (skip_loop budget s lb).
Qed.

(** *** A pool with no live target *)

Lemma call_all_down budget lb t lb' :
  Forall down (servers lb) ->
  getNextAvailableServer budget lb <> Returned t lb'.
Proof.
  intros Hall Hret.
  destruct (getNextAvailableServer_returned _ _ _ _ Hret) as (Ht & Hin & _).
  eapply Forall_forall in Hall; [|exact Hin].
  unfold down in Hall. congruence.
Qed.

(** In a pool with no live target the first [k] executions of the loop
    body only move the cursor, as long as it stays in range. *)
Lemma call_down_steps (k : nat) : forall lb budget,
  Forall down (servers lb) -> servers lb <> [] ->
  0 <= roundRobinCount lb ->
  roundRobinCount lb + Z.of_nat k <= int_max ->
  getNextAvailableServer (k + budget) lb =
  getNextAvailableServer budget (at_cursor lb (roundRobinCount lb + Z.of_nat k)).
Proof.
  induction k as [|k IH]; intros lb budget Hall Hne Hc Hmax.
  { simpl. by rewrite Z.add_0_r, at_cursor_self. }
  destruct (candidate_nonneg lb Hc Hne) as (s & Hs & _).
  assert (down s) as Hd.
  { eapply Forall_forall in Hall; [exact Hall|]. by eapply candidate_elem. }
  simpl. rewrite (call_down _ _ _ Hs Hd), bump_in_range by lia.
  rewrite IH; simpl; try (done || lia).
  rewrite at_cursor_idem. do 2 f_equal. lia.
Qed.

Lemma call_all_down_spins budget lb :
  Forall down (servers lb) -> servers lb <> [] ->
  0 <= roundRobinCount lb ->
  roundRobinCount lb + Z.of_nat budget <= int_max ->
  getNextAvailableServer budget lb = Spinning.
Proof.
  intros Hall Hne Hc Hmax.
  destruct (getNextAvailableServer budget lb) as [t lb'|p lb'|] eqn:Hg.
  - by apply call_all_down in Hg.
  - by apply call_no_panic in Hg.
  - done.
Qed.

End FirstLive.

(** ** The algorithm of the specification (C1) *)

Section AlgorithmOfTheSpecification.

Context {Request ResponseWriter T : Type}.
Context `{!Server Request ResponseWriter T}.

Implicit Types (lb : LoadBalancer T) (s t u : T) (targets : list T).

(** *** The algorithm over the mathematical integers *)












End AlgorithmOfTheSpecification.

(** ** One pass is enough for the loop to end *)

Section OnePass.

Context {Request ResponseWriter T : Type}.
Context `{!Server Request ResponseWriter T}.

Implicit Types (lb : LoadBalancer T) (s t u : T).

Lemma iter_bump (j : nat) lb :
  in_range (roundRobinCount lb) ->
  Nat.iter j bump lb =
  at_cursor lb (wrap (roundRobinCount lb + Z.of_nat j)).
Proof.
  intros Hc. induction j as [|j IH].
  - simpl. by rewrite Z.add_0_r, wrap_id, at_cursor_self.
  - simpl. rewrite IH, bump_at_cursor. simpl.
    rewrite incr_wrap, at_cursor_idem. do 2 f_equal. lia.
Qed.

(** A loop that is still running after [b] executions of its body has
    looked up [b + 1] candidates, at consecutive cursor values, and found
    each of them not alive. *)
Lemma spinning_all_down b : forall lb s,
  candidate lb = inl s ->
  skip_loop b s lb = Spinning ->
  forall j, (j <= b)%nat ->
    exists d, candidate (Nat.iter j bump lb) = inl d /\ down d.
Proof.
  induction b as [|b IH]; intros lb s Hc; simpl;
    destruct (IsAlive s) eqn:Hs; try discriminate.
  - intros _ j Hj. assert (j = 0%nat) as -> by lia. by exists s.
  - destruct (candidate (bump lb)) as [s'|p] eqn:Hc'; [|discriminate].
    intros Hspin [|j] Hj; [by exists s|].
    destruct (IH _ _ Hc' Hspin j ltac:(lia)) as (d & Hd & Hdown).
    exists d. split; [|done].
    by rewrite Nat.iter_succ_r.
Qed.

(** Whatever the cursor, if some target of the pool is alive the call has
    ended, by returning or by a panic, once the body of its loop has run
    [len - 1] times. *)
Lemma call_ends_in_one_pass lb u :
  in_range (roundRobinCount lb) ->
  u ∈ servers lb -> alive u ->
  getNextAvailableServer (length (servers lb) - 1) lb <> Spinning.
Proof.
  intros Hc Hin Hu. unfold getNextAvailableServer.
  destruct (candidate lb) as [s|p] eqn:Hcand; [|done].
  destruct (skip_loop _ s lb) as [t lb'|p lb'|] eqn:Hloop; try done.
  intros _.
  pose proof (spinning_all_down _ _ _ Hcand Hloop) as Hdown.
  apply list_elem_of_lookup in Hin as [a Ha].
  pose proof (lookup_lt_Some _ _ _ Ha) as Hlt.
  destruct (residues_covered (roundRobinCount lb) (len lb) (Z.of_nat a))
    as (j & Hj & Hrem).
  - done.
  - unfold len. lia.
  - unfold len. lia.
  - intros j Hj.
    destruct (Hdown (Z.to_nat j) ltac:(unfold len in Hj; lia)) as (d & Hd & _).
    rewrite iter_bump, Z2Nat.id in Hd by (done || lia).
    apply candidate_inl in Hd as (_ & Hd & _). exact Hd.
  - destruct (Hdown (Z.to_nat j) ltac:(unfold len in Hj; lia)) as (d & Hd & Hdd).
    rewrite iter_bump, Z2Nat.id in Hd by (done || lia).
    apply candidate_inl in Hd as (_ & _ & Hd). simpl in Hd.
    rewrite len_at_cursor, Hrem, Nat2Z.id, Ha in Hd.
    injection Hd as <-. by apply alive_not_down in Hu.
Qed.

(** A loop that returns has looked up a run of candidates that are not
    alive, at consecutive cursor values, and then the live one it returns. *)
Lemma returned_after b : forall lb s t lb',
  candidate lb = inl s ->
  skip_loop b s lb = Returned t lb' ->
  exists k : nat,
    lb' = Nat.iter k bump lb /\ candidate lb' = inl t /\ alive t /\
    forall j, (j < k)%nat ->
      exists d, candidate (Nat.iter j bump lb) = inl d /\ down d.
Proof.
  induction b as [|b IH]; intros lb s t lb' Hc; simpl;
    destruct (IsAlive s) eqn:Hs; try discriminate.
  - intros [= <- <-]. exists 0%nat. repeat split; try done. intros j Hj. lia.
  - intros [= <- <-]. exists 0%nat. repeat split; try done. intros j Hj. lia.
  - destruct (candidate (bump lb)) as [s'|p] eqn:Hc'; [|discriminate].
    intros Hret.
    destruct (IH _ _ _ _ Hc' Hret) as (k & -> & Hct & Ht & Hdown).
    exists (S k). rewrite Nat.iter_succ_r. repeat split; try done.
    intros [|j] Hj; [by exists s|].
    destruct (Hdown j ltac:(lia)) as (d & Hd & Hdd).
    exists d. by rewrite Nat.iter_succ_r.
Qed.

(** In a pool of one target every valid lookup finds that target. *)
Lemma candidate_single lb s :
  len lb = 1 -> candidate lb = inl s -> servers lb !! 0%nat = Some s.
Proof.
  intros Hn (_ & _ & Hs)%candidate_inl.
  by rewrite Hn, Z.rem_1_r in Hs.
Qed.

(** A call made with a non-negative cursor either leaves the cursor
    strictly larger or has wrapped it around to a negative value. *)
Lemma call_increases budget lb t lb' :
  0 <= roundRobinCount lb <= int_max ->
  getNextAvailableServer budget lb = Returned t lb' ->
  0 <= roundRobinCount lb' ->
  roundRobinCount lb < roundRobinCount lb'.
Proof.
  intros Hc. unfold getNextAvailableServer.
  destruct (candidate lb) as [s|p] eqn:Hcand; [|discriminate].
  destruct (skip_loop budget s lb) as [t' lb1| |] eqn:Hloop; try discriminate.
  intros [= -> <-].
  destruct (returned_after _ _ _ _ _ Hcand Hloop) as (k & -> & Hct & Ht & Hdown).
  assert (in_range (roundRobinCount lb)) as Hin
    by (pose proof int_min_neg; unfold in_range; lia).
  assert (forall j, (j <= k)%nat ->
            exists d, candidate (at_cursor lb (wrap (roundRobinCount lb
                                                     + Z.of_nat j))) = inl d /\
                      (j < k -> down d)%nat /\ (j = k -> d = t)) as Hvalid.
  { intros j Hj. destruct (decide (j = k)) as [->|Hne].
    - exists t. rewrite <- iter_bump by done. split; [done|]. split; [lia|done].
    - destruct (Hdown j ltac:(lia)) as (d & Hd & Hdd). exists d.
      rewrite <- iter_bump by done. split; [done|]. split; [done|lia]. }
  rewrite iter_bump by done. simpl. rewrite incr_wrap.
  set (c := roundRobinCount lb) in *.
  destruct (Z_le_gt_dec (c + Z.of_nat k + 1) int_max) as [Hfit|Hover].
  { rewrite wrap_id by (unfold in_range in *; lia). lia. }
  intros Hpos. exfalso.
  (* the cursor passes the largest int at step [j0 <= k + 1] *)
  set (j0 := Z.to_nat (int_max - c + 1)).
  destruct (decide (j0 = S k)) as [Hlast|Hearlier].
  { replace (c + Z.of_nat k + 1) with (int_max + 1) in Hpos by lia.
    change (wrap (int_max + 1)) with int_min in Hpos.
    pose proof int_min_neg. lia. }
  destruct (Hvalid j0 ltac:(lia)) as (d0 & Hd0 & _).
  replace (c + Z.of_nat j0) with (int_max + 1) in Hd0 by lia.
  change (wrap (int_max + 1)) with int_min in Hd0.
  apply candidate_inl in Hd0 as (Hn & Hr0 & _).
  simpl in Hr0. rewrite len_at_cursor in Hr0, Hn.
  assert (0 < len lb) as Hn' by (unfold len in *; lia).
  apply rem_neg_zero in Hr0; [|pose proof int_min_neg; lia | done].
  destruct (decide (j0 = k)) as [Hk|Hk].
  { replace (c + Z.of_nat k + 1) with (int_max + 2) in Hpos by lia.
    change (wrap (int_max + 2)) with (int_min + 1) in Hpos.
    unfold int_min in Hpos. lia. }
  destruct (Hvalid (S j0) ltac:(lia)) as (d1 & Hd1 & _).
  replace (c + Z.of_nat (S j0)) with (int_max + 2) in Hd1 by lia.
  change (wrap (int_max + 2)) with (int_min + 1) in Hd1.
  apply candidate_inl in Hd1 as (_ & Hr1 & _).
  simpl in Hr1. rewrite len_at_cursor in Hr1.
  apply rem_neg_zero in Hr1; [|unfold int_min; lia | done].
  pose proof (consecutive_multiples int_min (len lb) Hn' Hr0 Hr1) as Hone.
  (* a pool of one target: the target skipped first is the one returned *)
  destruct (Hvalid 0%nat ltac:(lia)) as (d & Hd & Hdd & _).
  destruct (Hvalid k ltac:(lia)) as (t' & Ht' & _ & Heq).
  rewrite (Heq eq_refl) in Ht'.
  apply candidate_single in Hd; [|by rewrite len_at_cursor].
  apply candidate_single in Ht'; [|by rewrite len_at_cursor].
  simpl in Hd, Ht'. rewrite Hd in Ht'. injection Ht' as ->.
  specialize (Hdd ltac:(lia)). by apply alive_not_down in Ht.
Qed.

Lemma call_cursor_in_range budget lb t lb' :
  getNextAvailableServer budget lb = Returned t lb' ->
  in_range (roundRobinCount lb').
Proof.
  unfold getNextAvailableServer.
  destruct (candidate lb) as [s|p]; [|discriminate].
  destruct (skip_loop budget s lb) as [t' lb1| |]; try discriminate.
  intros [= _ <-]. simpl. apply wrap_in_range.
Qed.

End OnePass.

(** ** Skipping, termination, progress and index validity (C3 to C6) *)

Section Claims.

Context {Request ResponseWriter T : Type}.
Context `{!Server Request ResponseWriter T}.

Implicit Types (lb : LoadBalancer T) (s t u : T) (l w : list T).

Lemma length_filter_alive_down l :
  (length (filter alive l) + length (filter down l) = length l)%nat.
Proof.
  induction l as [|x l IH]; [done|].
  destruct (alive_or_down x) as [Ha|Hd].
  - rewrite filter_cons_True, (filter_cons_False down) by
      (done || by apply alive_not_down).
    simpl. lia.
  - rewrite (filter_cons_False alive), filter_cons_True by
      (done || by apply down_not_alive).
    simpl. lia.
Qed.

(** C3, amended. In a pool of N targets of which exactly one is not
    alive: no call, whatever the cursor, returns a target that is not
    alive; and when the cursor is a non-negative [int] that one pass over
    the pool does not take beyond the largest [int]
    (cursor + N <= MaxInt64 + 1), N - 1 consecutive calls all return (one
    skip per call is enough) and return the N - 1 live targets, each
    exactly once, in rotation order from the position of the cursor. *)
Theorem dead_target_skip (budget : nat) lb :
  length (filter down (servers lb)) = 1%nat ->
  0 <= roundRobinCount lb <= int_max ->
  roundRobinCount lb + len lb <= int_max + 1 ->
  (1 <= budget)%nat ->
  (forall b c t lb',
      getNextAvailableServer b (at_cursor lb c) = Returned t lb' ->
      alive t) /\
  exists returned lb',
    calls budget (length (servers lb) - 1) lb = Returned returned lb' /\
    returned = filter alive (rotate (position lb) (servers lb)) /\
    returned ≡ₚ filter alive (servers lb).
Proof.
  intros Hone Hc Hmax Hb. split.
  - intros b c t lb' Hret.
    by destruct (getNextAvailableServer_returned _ _ _ _ Hret) as (Ht & _).
  - destruct (calls_pass lb budget) as (c' & Hcalls & _); [done | done | lia |].
    pose proof (length_filter_alive_down (servers lb)) as Hlen.
    replace (length (servers lb) - 1)%nat
      with (length (filter alive (servers lb))) by lia.
    eexists _, _. split; [exact Hcalls | split; [done|]].
    by rewrite rotate_perm.
Qed.

(** C4, amended. For a non-empty pool: if some target is alive, the loop
    ends within one pass whatever the cursor, that is, the call has ended
    once the body of the loop has run [len - 1] times, and when the cursor
    is non-negative and one pass does not take it beyond the largest [int]
    (cursor + len <= MaxInt64 + 1) the loop ends by finding a live target,
    which the call returns; if every target is not alive, the call never
    returns, and from a non-negative cursor the loop is still running
    after any number of executions of its body that keeps the cursor
    within the [int] range. *)
Theorem selection_termination lb :
  servers lb <> [] ->
  in_range (roundRobinCount lb) ->
  (forall u, u ∈ servers lb -> alive u ->
     (forall budget, (length (servers lb) - 1 <= budget)%nat ->
        getNextAvailableServer budget lb <> Spinning) /\
     (0 <= roundRobinCount lb ->
      roundRobinCount lb + len lb <= int_max + 1 ->
      exists t lb',
        alive t /\
        forall budget, (length (servers lb) - 1 <= budget)%nat ->
          getNextAvailableServer budget lb = Returned t lb')) /\
  (Forall down (servers lb) ->
     (forall budget t lb',
         getNextAvailableServer budget lb <> Returned t lb') /\
     (forall budget,
         0 <= roundRobinCount lb ->
         roundRobinCount lb + Z.of_nat budget <= int_max ->
         getNextAvailableServer budget lb = Spinning)).
Proof.
  intros Hne Hin_range. split.
  - intros u Hin Hu. split.
    + intros budget Hb.
      pose proof (call_ends_in_one_pass lb u Hin_range Hin Hu) as Hend.
      by rewrite (getNextAvailableServer_budget_mono
                    (length (servers lb) - 1) budget).
    + intros Hc Hmax.
      destruct (call_returns (length (servers lb) - 1) lb u)
        as (t & lb' & Hret & _); try done.
      exists t, lb'. split.
      * by destruct (getNextAvailableServer_returned _ _ _ _ Hret) as (Ht & _).
      * intros budget Hb.
        rewrite (getNextAvailableServer_budget_mono
                   (length (servers lb) - 1) budget);
          [done | done | by rewrite Hret].
  - intros Hall. split.
    + intros budget t lb'. by apply call_all_down.
    + intros budget Hc Hb. by apply call_all_down_spins.
Qed.

Lemma StronglySorted_lt_NoDup (cs : list Z) :
  StronglySorted Z.lt cs -> NoDup cs.
Proof.
  induction 1 as [|c cs _ IH Hall]; constructor; [|done].
  intros Hin. eapply Forall_forall in Hall; [|exact Hin]. lia.
Qed.

Lemma cursors_head budget m lb (cs : list Z) lb' :
  cursors budget m lb = Returned cs lb' ->
  exists cs', cs = roundRobinCount lb :: cs'.
Proof.
  destruct m as [|m]; simpl.
  - intros [= <- _]. by eexists.
  - destruct (getNextAvailableServer budget lb) as [t lb1| |];
      try discriminate.
    destruct (cursors budget m lb1) as [cs1 lb2| |]; try discriminate.
    intros [= <- _]. by eexists.
Qed.

Lemma cursors_sorted budget m : forall lb (cs : list Z) lb',
  0 <= roundRobinCount lb <= int_max ->
  cursors budget m lb = Returned cs lb' ->
  Forall (Z.le 0) cs ->
  Sorted Z.lt cs.
Proof.
  induction m as [|m IH]; intros lb cs lb' Hc; simpl.
  - intros [= <- _] _. repeat constructor.
  - destruct (getNextAvailableServer budget lb) as [t lb1| |] eqn:Hg;
      try discriminate.
    destruct (cursors budget m lb1) as [cs1 lb2| |] eqn:Hcs;
      try discriminate.
    intros [= <- _] Hpos. apply Forall_cons in Hpos as [_ Hpos].
    destruct (cursors_head _ _ _ _ _ Hcs) as [cs' ->].
    pose proof Hpos as [Hpos1 _]%Forall_cons.
    pose proof (call_cursor_in_range _ _ _ _ Hg) as [_ Hhi].
    constructor.
    + by apply (IH lb1 _ lb2).
    + constructor. by apply (call_increases budget lb t lb1).
Qed.

Lemma cursors_nonneg budget m : forall lb (cs : list Z) lb',
  0 <= roundRobinCount lb ->
  roundRobinCount lb + Z.of_nat m * len lb <= int_max ->
  cursors budget m lb = Returned cs lb' ->
  Forall (Z.le 0) cs.
Proof.
  induction m as [|m IH]; intros lb cs lb' Hc Hmax; simpl.
  - intros [= <- _]. by repeat constructor.
  - destruct (getNextAvailableServer budget lb) as [t lb1| |] eqn:Hg;
      try discriminate.
    destruct (cursors budget m lb1) as [cs1 lb2| |] eqn:Hcs;
      try discriminate.
    intros [= <- _].
    assert (0 <= len lb) as Hn by (unfold len; lia).
    destruct (getNextAvailableServer_returned _ _ _ _ Hg) as (_ & _ & _ & Hs).
    assert (len lb1 = len lb) as Hl by (unfold len; by rewrite Hs).
    pose proof (call_advance budget lb t lb1 Hc ltac:(nia) Hg) as Hadv.
    constructor; [done|].
    apply (IH lb1 cs1 lb2); [lia | rewrite Hl; nia | done].
Qed.

(** C5, amended. A call that returns leaves the cursor strictly larger
    than it found it unless the increment wraps around: when the cursor is
    a non-negative [int] before the call and non-negative after it, it is
    strictly larger after. The cursor values seen before, between and after
    [m] successive calls are strictly increasing, so that none is
    repeated, as long as they stay non-negative, which they do when the
    first is at least [m] pool sizes below the largest [int]. *)
Theorem cursor_progress (budget m : nat) lb :
  0 <= roundRobinCount lb <= int_max ->
  (forall t lb',
      getNextAvailableServer budget lb = Returned t lb' ->
      0 <= roundRobinCount lb' ->
      roundRobinCount lb < roundRobinCount lb') /\
  (forall cs lb',
      cursors budget m lb = Returned cs lb' ->
      Forall (Z.le 0) cs ->
      StronglySorted Z.lt cs /\ NoDup cs) /\
  (roundRobinCount lb + Z.of_nat m * len lb <= int_max ->
   forall cs lb',
     cursors budget m lb = Returned cs lb' -> Forall (Z.le 0) cs).
Proof.
  intros Hc. split; [|split].
  - intros t lb'. by apply call_increases.
  - intros cs lb' Hcs Hpos.
    assert (StronglySorted Z.lt cs) as Hs.
    { apply Sorted_StronglySorted; [apply _|]. by eapply cursors_sorted. }
    split; [done | by apply StronglySorted_lt_NoDup].
  - intros Hmax cs lb'. apply cursors_nonneg; [lia | done].
Qed.

(** C6, amended. For a balancer whose target list is not empty and whose
    cursor is not negative, [cursor % len] is a valid index into the list,
    so the first lookup of [getNextAvailableServer] succeeds; and no
    lookup made by the loop fails as long as the cursor, incremented once
    per execution of the loop body, stays within the [int] range. *)
Theorem index_validity lb :
  servers lb <> [] ->
  0 <= roundRobinCount lb ->
  (0 <= Z.rem (roundRobinCount lb) (len lb) < len lb /\
   is_Some (servers lb !! Z.to_nat (Z.rem (roundRobinCount lb) (len lb))) /\
   exists s, candidate lb = inl s) /\
  (forall budget p lb',
      roundRobinCount lb + Z.of_nat budget <= int_max ->
      getNextAvailableServer budget lb <> Panicked p lb').
Proof.
  intros Hne Hc. split.
  - assert (0 < len lb) as Hn.
    { unfold len. destruct (servers lb); [done | simpl; lia]. }
    destruct (candidate_nonneg lb Hc Hne) as (s & Hs & Hl).
    rewrite rem_nonneg_mod by done.
    split; [by apply Z.mod_pos_bound | split; [by rewrite Hl | by exists s]].
  - intros budget p lb' Hmax. by apply call_no_panic.
Qed.

End Claims.

(** ** The dispatcher (C7) and the first selection (C10) *)

Section Dispatcher.

Context {Request ResponseWriter T : Type}.
Context `{!Server Request ResponseWriter T}.
Variable quote : string -> string.

Implicit Types (lb : LoadBalancer T) (s t u : T).

(** C7. A request handled by [serveProxy] leaves the balancer as exactly
    one call of [getNextAvailableServer] leaves it; when the handler
    returns, the response is what the single forward to the selected
    target made of it, whatever that is, the only forward among the calls
    made is the one to that target, and the pool, hence the liveness of
    every target, is as before; when the selection does not return,
    neither does the handler. *)
Theorem dispatch_contract (budget : nat) lb rw req :
  (forall rw' evs lb',
      serveProxy quote budget lb rw req = Returned (rw', evs) lb' ->
      exists t,
        getNextAvailableServer budget lb = Returned t lb' /\
        rw' = Serve t rw req /\
        forwards evs = [(t, req)] /\
        servers lb' = servers lb /\
        IsAlive <$> servers lb' = IsAlive <$> servers lb) /\
  (forall p lb',
      serveProxy quote budget lb rw req = Panicked p lb' <->
      getNextAvailableServer budget lb = Panicked p lb') /\
  (serveProxy quote budget lb rw req = Spinning <->
   getNextAvailableServer budget lb = Spinning).
Proof.
  unfold serveProxy.
  destruct (getNextAvailableServer budget lb) as [t lb1|p lb1|] eqn:Hg.
  - split; [|split; [intros p lb'|]; split; done].
    intros rw' evs lb' [= <- <- <-].
    destruct (getNextAvailableServer_returned _ _ _ _ Hg) as (_ & _ & _ & Hs).
    exists t. by rewrite Hs.
  - split; [done|]. split; [|split; done].
    intros p' lb'. split; intros [= -> ->]; reflexivity.
  - split; [done|]. split; [|split; done]. intros p lb'. split; done.
Qed.

(** C10. [NewLoadBalancer] stores the port and the server list it is
    given and starts the cursor at 0; when the first server of the list
    is alive, the first call of [getNextAvailableServer] on the new
    balancer returns that server. *)
Theorem initial_selection (budget : nat) (p : string) (ss : list T) :
  port (NewLoadBalancer p ss) = p /\
  roundRobinCount (NewLoadBalancer p ss) = 0 /\
  servers (NewLoadBalancer p ss) = ss /\
  (forall s rest,
      ss = s :: rest -> alive s ->
      getNextAvailableServer budget (NewLoadBalancer p ss) =
        Returned s (at_cursor (NewLoadBalancer p ss) 1)).
Proof.
  split; [done | split; [done | split; [done|]]].
  intros s rest -> Hs.
  rewrite (call_alive budget _ s); [done | | done].
  apply candidate_inl. unfold len. simpl.
  rewrite Z.rem_0_l by lia. split; [lia | done].
Qed.

End Dispatcher.

(** ** [simpleServer]: liveness (C9) and start-up (C8) *)

Section SimpleServerProperties.

Context {Request ResponseWriter : Type}.
Variables URL ReverseProxy : Type.
Variable url_Parse : string -> option URL * option string.
Variable NewSingleHostReverseProxy : option URL -> ReverseProxy.
Variable ServeHTTP : ReverseProxy -> ResponseWriter -> Request -> ResponseWriter.
Variable quote : string -> string.

Abbreviation simple := (simpleServer_Server ReverseProxy ServeHTTP).
Abbreviation select := (getNextAvailableServer (Server0 := simple)).
Abbreviation handle := (serveProxy (Server0 := simple) quote).
Abbreviation new_server := (newSimpleServer URL ReverseProxy url_Parse
                          NewSingleHostReverseProxy).
Abbreviation new_servers := (newSimpleServers URL ReverseProxy url_Parse
                           NewSingleHostReverseProxy).
Abbreviation start := (main_with URL ReverseProxy url_Parse
                     NewSingleHostReverseProxy).

Implicit Types (lb : LoadBalancer (simpleServer ReverseProxy)).

(** C9. [IsAlive] of a [simpleServer] is [true] whatever its address and
    proxy; neither a selection nor the handling of a request changes the
    pool, so nothing changes the liveness of a target; and on a pool of
    [simpleServer]s the loop body of [getNextAvailableServer] is never
    executed: with any budget the call is the first lookup followed by
    the final increment, which is what a budget of zero executions of the
    body gives. *)
Theorem static_liveness (s : simpleServer ReverseProxy) (budget : nat) lb :
  IsAlive (Server := simple) s = true /\
  select budget lb =
    match candidate lb with
    | inl t => Returned t (bump lb)
    | inr p => Panicked p lb
    end /\
  select budget lb = select 0%nat lb /\
  select 0%nat lb <> Spinning /\
  match select budget lb with
  | Returned _ lb' | Panicked _ lb' => servers lb' = servers lb
  | Spinning => True
  end /\
  (forall rw req,
      match handle budget lb rw req with
      | Returned _ lb' | Panicked _ lb' => servers lb' = servers lb
      | Spinning => True
      end).
Proof.
  assert (forall b, select b lb =
            match candidate lb with
            | inl t => Returned t (bump lb)
            | inr p => Panicked p lb
            end) as Hsel.
  { intros b. unfold getNextAvailableServer.
    destruct (candidate lb) as [t|p]; [|done].
    by rewrite skip_loop_alive. }
  split; [done|]. split; [apply Hsel|].
  split; [by rewrite !Hsel|].
  split; [rewrite Hsel; by destruct (candidate lb)|].
  split.
  - rewrite Hsel. by destruct (candidate lb).
  - intros rw req. unfold serveProxy. rewrite Hsel.
    by destruct (candidate lb).
Qed.

Lemma new_server_fails a msg :
  (url_Parse a).2 = Some msg ->
  new_server a = Exited 1 [("error: " ++ msg ++ newline)%string].
Proof.
  unfold newSimpleServer. destruct (url_Parse a) as [u e]. simpl.
  by intros ->.
Qed.

Lemma new_server_cases a :
  (exists s, new_server a = Running s [] /\ (url_Parse a).2 = None) \/
  (exists msg, new_server a = Exited 1 [("error: " ++ msg ++ newline)%string]
               /\ (url_Parse a).2 = Some msg).
Proof.
  unfold newSimpleServer. destruct (url_Parse a) as [u [msg|]]; simpl.
  - right. by exists msg.
  - left. by eexists.
Qed.

Lemma new_servers_fail addrs : forall a msg,
  a ∈ addrs -> (url_Parse a).2 = Some msg ->
  exists a' msg',
    a' ∈ addrs /\ (url_Parse a').2 = Some msg' /\
    new_servers addrs = Exited 1 [("error: " ++ msg' ++ newline)%string].
Proof.
  induction addrs as [|a0 addrs IH]; intros a msg Hin Hbad.
  { by apply elem_of_nil in Hin. }
  simpl. destruct (new_server_cases a0) as [(s & -> & Hok)|(m0 & -> & Hm0)].
  - apply elem_of_cons in Hin as [->|Hin]; [congruence|].
    destruct (IH a msg Hin Hbad) as (a' & msg' & Hin' & Hbad' & ->).
    exists a', msg'. split; [by apply elem_of_cons; right | done].
  - exists a0, m0. split; [by apply elem_of_cons; left | done].
Qed.

Lemma new_servers_ok addrs :
  (forall a, a ∈ addrs -> (url_Parse a).2 = None) ->
  exists ss, new_servers addrs = Running ss [] /\ addr <$> ss = addrs.
Proof.
  induction addrs as [|a addrs IH]; intros Hok.
  { by exists []. }
  destruct IH as (ss & Hss & Haddr).
  { intros a' Hin. apply Hok. by apply elem_of_cons; right. }
  pose proof (Hok a ltac:(by apply elem_of_cons; left)) as Ha.
  simpl. unfold newSimpleServer. destruct (url_Parse a) as [u e].
  simpl in Ha. subst e. simpl. rewrite Hss. simpl.
  eexists. split; [reflexivity|]. rewrite fmap_cons. by rewrite Haddr.
Qed.

(** When every configured address parses, [main] gets to serve requests
    with a balancer just built over one [simpleServer] per address, in
    the order of the configuration. *)
Lemma main_starts :
  (forall a, a ∈ backends -> (url_Parse a).2 = None) ->
  exists ss,
    main URL ReverseProxy url_Parse NewSingleHostReverseProxy =
      Running (NewLoadBalancer "8000" ss)
              [("serving requests at 'localhost:8000'" ++ newline)%string] /\
    addr <$> ss = backends.
Proof.
  intros Hok. destruct (new_servers_ok backends Hok) as (ss & Hss & Haddr).
  exists ss. split; [|done].
  unfold main, main_with. by rewrite Hss.
Qed.

(** C8. Building a target from an address that [url.Parse] rejects ends
    the process: [newSimpleServer] prints the error and exits with status
    1 without producing a target; and when any of the configured
    addresses is rejected, [main] exits with status 1, having printed only
    the error of a rejected address, and never gets to serve a request. *)
Theorem startup_validation (a msg : string) :
  (url_Parse a).2 = Some msg ->
  new_server a = Exited 1 [("error: " ++ msg ++ newline)%string] /\
  (forall s out, new_server a <> Running s out) /\
  (forall addrs p,
      a ∈ addrs ->
      (exists a' msg',
          a' ∈ addrs /\ (url_Parse a').2 = Some msg' /\
          start addrs p = Exited 1 [("error: " ++ msg' ++ newline)%string]) /\
      (forall lb out, start addrs p <> Running lb out)).
Proof.
  intros Hbad. pose proof (new_server_fails a msg Hbad) as Hexit.
  split; [done|]. split; [intros s out; by rewrite Hexit|].
  intros addrs p Hin.
  destruct (new_servers_fail addrs a msg Hin Hbad)
    as (a' & msg' & Hin' & Hbad' & Hfail).
  unfold main_with. rewrite Hfail. simpl. split.
  - by exists a', msg'.
  - intros lb out. discriminate.
Qed.

End SimpleServerProperties.

(** * Further properties of the code *)

(** ** Panics *)

Section Panics.

Context {Request ResponseWriter T : Type}.
Context `{!Server Request ResponseWriter T}.
Variable quote : string -> string.

Implicit Types (lb : LoadBalancer T) (s t : T).

(** A panic is raised by the lookup [lb.servers[...]], at the cursor the
    balancer is left with. *)
Lemma skip_loop_panicked budget : forall s lb p lb',
  skip_loop budget s lb = Panicked p lb' ->
  candidate lb' = inr p /\ port lb' = port lb /\ servers lb' = servers lb.
Proof.
  induction budget as [|budget IH]; intros s lb p lb'; simpl;
    destruct (IsAlive s); try done.
  destruct (candidate (bump lb)) as [s'|p'] eqn:E.
  - intros (Hc & Hp & Hs)%IH. done.
  - by intros [= <- <-].
Qed.

Lemma call_panicked budget lb p lb' :
  getNextAvailableServer budget lb = Panicked p lb' ->
  candidate lb' = inr p /\ port lb' = port lb /\ servers lb' = servers lb.
Proof.
  unfold getNextAvailableServer. destruct (candidate lb) as [s|p0] eqn:E.
  - destruct (skip_loop budget s lb) as [| |] eqn:E2; try done.
    intros [= <- <-]. by eapply skip_loop_panicked.
  - by intros [= <- <-].
Qed.

Lemma candidate_panics budget lb p :
  candidate lb = inr p -> getNextAvailableServer budget lb = Panicked p lb.
Proof. unfold getNextAvailableServer. by intros ->. Qed.

Lemma candidate_divide lb :
  candidate lb = inr DivideByZero <-> servers lb = [].
Proof.
  unfold candidate, len. split.
  - destruct (servers lb) as [|s l]; [done|]. simpl length.
    destruct (_ =? 0) eqn:E0; [apply Z.eqb_eq in E0; lia|].
    destruct (_ <? 0); [done|]. by destruct (_ !! _).
  - by intros ->.
Qed.

Lemma candidate_index lb i n :
  candidate lb = inr (IndexOutOfRange i n) ->
  n = len lb /\ i = Z.rem (roundRobinCount lb) n /\
  - n < i < 0 /\ roundRobinCount lb < 0.
Proof.
  unfold candidate. destruct (len lb =? 0) eqn:E0; [done|].
  apply Z.eqb_neq in E0.
  assert (0 < len lb) as Hn by (unfold len in *; lia).
  destruct (Z.rem (roundRobinCount lb) (len lb) <? 0) eqn:E1.
  - intros [= <- <-]. apply Z.ltb_lt in E1.
    destruct (Z.le_gt_cases 0 (roundRobinCount lb)) as [Hc|Hc].
    + pose proof (Z.rem_bound_pos _ _ Hc Hn). lia.
    + pose proof (Z.rem_bound_pos_neg (roundRobinCount lb) (len lb) Hn).
      lia.
  - apply Z.ltb_ge in E1.
    destruct (servers lb !! _) as [s|] eqn:E2; [done|].
    apply lookup_ge_None in E2. intros _. exfalso.
    destruct (Z.le_gt_cases 0 (roundRobinCount lb)) as [Hc|Hc].
    + pose proof (Z.rem_bound_pos _ _ Hc Hn). unfold len in *. lia.
    + pose proof (Z.rem_bound_pos_neg (roundRobinCount lb) (len lb) Hn).
      unfold len in *. lia.
Qed.

(** X1. A call of [getNextAvailableServer] panics with an integer
    division by zero exactly when the pool is empty; the balancer is then
    left as it was, [serveProxy] panics in the same way before it prints
    or forwards anything, and a balancer that [NewLoadBalancer] built over
    no server at all does so from its first call. *)
Theorem empty_pool_divides_by_zero (budget : nat) lb :
  (servers lb = [] <->
   exists lb', getNextAvailableServer budget lb = Panicked DivideByZero lb') /\
  (forall lb',
      getNextAvailableServer budget lb = Panicked DivideByZero lb' ->
      lb' = lb) /\
  (forall rw req,
      servers lb = [] ->
      serveProxy quote budget lb rw req = Panicked DivideByZero lb) /\
  (forall p,
      getNextAvailableServer budget (NewLoadBalancer p []) =
        Panicked DivideByZero (NewLoadBalancer p [])).
Proof.
  assert (forall lb', getNextAvailableServer budget lb =
            Panicked DivideByZero lb' -> servers lb = []) as Hempty.
  { intros lb' (Hc & _ & Hs)%call_panicked.
    apply candidate_divide in Hc. congruence. }
  split; [split|split; [|split]].
  - intros He. exists lb. by apply candidate_panics, candidate_divide.
  - intros [lb' H]. by eapply Hempty.
  - intros lb' H. pose proof (Hempty _ H) as He.
    apply candidate_divide, (candidate_panics budget) in He. congruence.
  - intros rw req He. unfold serveProxy.
    by rewrite (candidate_panics budget lb DivideByZero)
      by by apply candidate_divide.
  - intros p. by apply candidate_panics, candidate_divide.
Qed.

(** X2. A call that panics has changed neither the port nor the pool and
    leaves the cursor where the failed lookup found it: every later call,
    and so every later request, panics in the same way, under any budget,
    and leaves the balancer as it is. *)
Theorem panic_is_permanent (budget : nat) lb p lb' :
  getNextAvailableServer budget lb = Panicked p lb' ->
  port lb' = port lb /\ servers lb' = servers lb /\
  forall budget',
    getNextAvailableServer budget' lb' = Panicked p lb' /\
    (forall rw req, serveProxy quote budget' lb' rw req = Panicked p lb') /\
    (forall m, calls budget' (S m) lb' = Panicked p lb').
Proof.
  intros (Hc & Hp & Hs)%call_panicked. split; [done|split; [done|]].
  intros budget'. pose proof (candidate_panics budget' lb' p Hc) as H.
  split; [done|split].
  - intros rw req. unfold serveProxy. by rewrite H.
  - intros m. simpl. by rewrite H.
Qed.

(** X3. An index panic of [getNextAvailableServer] carries a negative
    index: the index is the remainder of a negative cursor by the length
    of the pool, strictly between [- len] and 0. The lookup never runs
    past the end of the slice. *)
Theorem index_panic_is_negative (budget : nat) lb i n lb' :
  getNextAvailableServer budget lb = Panicked (IndexOutOfRange i n) lb' ->
  n = len lb /\ i = Z.rem (roundRobinCount lb') n /\
  - n < i < 0 /\ roundRobinCount lb' < 0.
Proof.
  intros (Hc & _ & Hs)%call_panicked.
  apply candidate_index in Hc as (-> & Hi & Hb & Hneg).
  unfold len in *. rewrite Hs in *. done.
Qed.

End Panics.

(** ** The order of service *)

Section OrderOfService.

Context {Request ResponseWriter T : Type}.
Context `{!Server Request ResponseWriter T}.

Implicit Types (lb : LoadBalancer T) (s t : T).

(** X4. On a non-empty pool of live targets, from a non-negative cursor
    c that m calls do not take beyond the largest [int]
    (c + m <= MaxInt64 + 1), any number m of consecutive calls return,
    under any budget; the k-th of them, counted from 0, returns
    [servers[(c + k) mod len]], and the cursor ends at c + m (wrapped
    around when that is MaxInt64 + 1). *)
Theorem rotation_law (budget m : nat) lb :
  servers lb <> [] ->
  Forall alive (servers lb) ->
  0 <= roundRobinCount lb <= int_max ->
  roundRobinCount lb + Z.of_nat m <= int_max + 1 ->
  exists returned,
    calls budget m lb =
      Returned returned
        (at_cursor lb (wrap (roundRobinCount lb + Z.of_nat m))) /\
    length returned = m /\
    forall k, (k < m)%nat ->
      is_Some (returned !! k) /\
      returned !! k =
        servers lb !! Z.to_nat ((roundRobinCount lb + Z.of_nat k) mod len lb).
Proof.
  revert lb. induction m as [|m IH]; intros lb Hne Hall Hc Hmax.
  - exists []. simpl. rewrite Z.add_0_r, wrap_id, at_cursor_self
      by (unfold in_range, int_min, int_max in *; lia).
    split; [done|split; [done|]]. intros k Hk. lia.
  - destruct (candidate_nonneg lb) as (s & Hcand & Hs); [lia|done|].
    assert (alive s) as Hlive.
    { rewrite Forall_forall in Hall. by eapply Hall, candidate_elem. }
    pose proof (call_alive budget lb s Hcand Hlive) as Hcall.
    assert (forall r : list T, (s :: r) !! 0%nat =
              servers lb !! Z.to_nat ((roundRobinCount lb + Z.of_nat 0)
                                        mod len lb)) as Hfirst.
    { intros r. simpl. by rewrite Z.add_0_r, Hs. }
    destruct m as [|m].
    { exists [s]. simpl calls. rewrite Hcall, bump_at_cursor.
      split; [done|split; [done|]].
      intros [|k] Hlt; [|lia]. by rewrite Hfirst, Z.add_0_r, Hs. }
    rewrite bump_in_range in Hcall by lia.
    destruct (IH (at_cursor lb (roundRobinCount lb + 1)))
      as (r & Hr & Hlen & Hk); [done|done|simpl; lia|simpl; lia|].
    exists (s :: r). simpl calls. simpl calls in Hr. rewrite Hcall, Hr.
    simpl roundRobinCount. rewrite at_cursor_idem. split; [|split].
    + do 3 f_equal. lia.
    + simpl. by rewrite Hlen.
    + intros [|k] Hlt.
      * by rewrite Hfirst, Z.add_0_r, Hs.
      * destruct (Hk k) as (Hsome & Heq); [lia|]. split; [done|].
        simpl lookup at 1. rewrite Heq.
        exact (slot_succ lb k).
Qed.

(** X5. Whatever the number of targets that are not alive, from a
    non-negative cursor that one pass over the pool does not take beyond
    the largest [int] (cursor + len <= MaxInt64 + 1), and with a budget of
    one execution of the loop body for each target that is not alive: as
    many consecutive calls as there are live targets all return, and
    return the live targets in rotation order from the position of the
    cursor, that is, exactly the live targets of the pool, each as often
    as the pool holds it; port and pool are unchanged. *)
Theorem live_targets_share_a_pass (budget : nat) lb :
  0 <= roundRobinCount lb <= int_max ->
  roundRobinCount lb + len lb <= int_max + 1 ->
  (length (filter down (servers lb)) <= budget)%nat ->
  exists returned lb',
    calls budget (length (filter alive (servers lb))) lb =
      Returned returned lb' /\
    returned = filter alive (rotate (position lb) (servers lb)) /\
    returned ≡ₚ filter alive (servers lb) /\
    (forall t, t ∈ returned <-> t ∈ servers lb /\ alive t) /\
    (NoDup (servers lb) -> NoDup returned) /\
    port lb' = port lb /\ servers lb' = servers lb.
Proof.
  intros Hc Hmax Hb.
  destruct (calls_pass lb budget) as (c' & Hcalls & _); [done..|].
  assert (filter alive (rotate (position lb) (servers lb))
            ≡ₚ filter alive (servers lb)) as Hperm
    by by rewrite rotate_perm.
  eexists _, _. split; [exact Hcalls|]. split; [done|]. split; [done|].
  split; [|split; [|done]].
  - intros t. rewrite Hperm, list_elem_of_filter. tauto.
  - intros Hnd. rewrite Hperm. by apply NoDup_filter.
Qed.

(** X6. When the k targets found from the cursor on are not alive and
    the one after them, t, is alive (cursor c non-negative and
    c + k <= MaxInt64), the call runs the body of its loop exactly k
    times: with a budget of k executions or more it returns t and leaves
    the cursor at c + k + 1 (wrapped around when that is MaxInt64 + 1),
    with any smaller budget it is still in its loop. *)
Theorem skip_cost (k budget : nat) lb t :
  0 <= roundRobinCount lb ->
  roundRobinCount lb + Z.of_nat k <= int_max ->
  (forall j, (j < k)%nat -> exists d, slot lb j = Some d /\ down d) ->
  slot lb k = Some t -> alive t ->
  getNextAvailableServer budget lb =
    if (budget <? k)%nat then Spinning
    else Returned t
           (at_cursor lb (wrap (roundRobinCount lb + Z.of_nat k + 1))).
Proof.
  revert budget lb.
  induction k as [|k IH]; intros budget lb Hc Hmax Hdead Ht Hlive.
  - rewrite (call_alive budget lb t) by (by apply candidate_slot || done).
    rewrite bump_at_cursor. unfold incr.
    replace (budget <? 0)%nat with false by (symmetry; apply Nat.ltb_ge; lia).
    do 3 f_equal. lia.
  - destruct (Hdead 0%nat) as (d & Hd & Hdown); [lia|].
    apply candidate_slot in Hd; [|done].
    destruct budget as [|budget].
    + by rewrite (call_down_0 lb d).
    + rewrite (call_down budget lb d) by done.
      rewrite bump_in_range by lia.
      rewrite (IH budget (at_cursor lb (roundRobinCount lb + 1))).
      * change (S budget <? S k)%nat with (budget <? k)%nat.
        destruct (budget <? k)%nat; [done|].
        rewrite at_cursor_idem. simpl roundRobinCount. do 3 f_equal. lia.
      * simpl. lia.
      * simpl. lia.
      * intros j Hj. rewrite slot_succ. apply Hdead. lia.
      * by rewrite slot_succ.
      * done.
Qed.

(** X7. On a pool of a single target the index is 0 for every value of
    the cursor, negative ones included: when the target is alive every
    call returns it and moves the cursor by one, with wrap-around; when it
    is not alive the call neither returns nor panics, under any budget. *)
Theorem single_target_pool (budget : nat) (p : string) (c : Z) s :
  (alive s ->
   getNextAvailableServer budget (mkLB p c [s]) =
     Returned s (mkLB p (incr c) [s])) /\
  (down s -> getNextAvailableServer budget (mkLB p c [s]) = Spinning).
Proof.
  assert (forall c', candidate (mkLB p c' [s]) = inl s) as Hcand.
  { intros c'. unfold candidate, len. simpl. by rewrite Z.rem_1_r. }
  split.
  - intros Hlive. by rewrite (call_alive budget _ s).
  - intros Hdown. revert c. induction budget as [|budget IH]; intros c.
    + by rewrite (call_down_0 _ s).
    + rewrite (call_down budget _ s) by done. apply IH.
Qed.

(** X8. Once the cursor is negative, a pool of two or more targets
    returns at most one more target: two consecutive calls, each allowed
    at least one execution of the loop body, end in an index panic with a
    negative index, and from then on every call panics in the same
    way. *)
Theorem negative_cursor_breaks (budget : nat) lb :
  int_min <= roundRobinCount lb < 0 ->
  (2 <= length (servers lb))%nat ->
  (1 <= budget)%nat ->
  exists i lb',
    calls budget 2 lb = Panicked (IndexOutOfRange i (len lb)) lb' /\
    i < 0 /\
    forall budget' m,
      calls budget' (S m) lb' = Panicked (IndexOutOfRange i (len lb)) lb'.
Proof.
  intros Hc Hlen Hb.
  assert (0 < len lb) as Hn by (unfold len; lia).
  (* a lookup that fails at the cursor of [lb'] fails in every later call *)
  assert (forall i lb',
            candidate lb' = inr (IndexOutOfRange i (len lb)) ->
            forall budget' m,
              calls budget' (S m) lb' =
                Panicked (IndexOutOfRange i (len lb)) lb') as Hagain.
  { intros i lb' Hp budget' m. simpl calls.
    by rewrite (candidate_panics budget' _ _ Hp). }
  destruct (candidate lb) as [s|[|i n]] eqn:Hcand.
  - (* the first lookup is valid: the cursor is a multiple of [len], so
       the next cursor is not *)
    assert (exists i, candidate (bump lb) = inr (IndexOutOfRange i (len lb))
                      /\ i < 0) as (i & Hp & Hi).
    { apply candidate_inl in Hcand as (_ & Hr & _).
      apply rem_neg_zero in Hr; [|lia|done].
      unfold candidate, bump. simpl. change (len _) with (len lb).
      rewrite incr_small by (unfold int_max; lia).
      destruct (len lb =? 0) eqn:E0; [apply Z.eqb_eq in E0; lia|].
      destruct (_ <? 0) eqn:E1.
      - apply Z.ltb_lt in E1. by eexists.
      - apply Z.ltb_ge in E1. apply rem_neg_zero in E1; [|lia|done].
        pose proof (consecutive_multiples _ _ Hn Hr E1).
        unfold len in *. lia. }
    exists i, (bump lb). split; [|split; [done|by apply Hagain]].
    destruct (alive_or_down s) as [Hlive|Hdown].
    + simpl calls. rewrite (call_alive budget lb s) by done.
      by rewrite (candidate_panics budget _ _ Hp).
    + destruct budget as [|budget]; [lia|].
      simpl calls. rewrite (call_down budget lb s) by done.
      by rewrite (candidate_panics budget _ _ Hp).
  - apply candidate_divide in Hcand. rewrite Hcand in Hlen.
    simpl in Hlen. lia.
  - destruct (candidate_index _ _ _ Hcand) as (-> & _ & Hi & _).
    exists i, lb. split; [|split; [lia|by apply Hagain]].
    simpl calls. by rewrite (candidate_panics budget _ _ Hcand).
Qed.

End OrderOfService.

(** ** Sequences of requests *)

Section Requests.

Context {Request ResponseWriter T : Type}.
Context `{!Server Request ResponseWriter T}.
Variable quote : string -> string.

Implicit Types (lb : LoadBalancer T) (s t : T).

(** X9. Requests handled one after the other by [serveProxy] are served
    by the targets that as many successive calls of
    [getNextAvailableServer] return, in order: each request is forwarded,
    with its own response writer, to the target of its own call, after the
    line quoting that target's address has been printed; and the run
    panics, or stays in the loop, exactly when the calls do, with the same
    balancer left behind. *)
Theorem requests_follow_calls (budget : nat) lb
    (reqs : list (ResponseWriter * Request)) :
  requests quote budget lb reqs =
    match calls budget (length reqs) lb with
    | Returned targets lb' =>
        Returned
          (zip_with
             (fun t '(rw, req) =>
                (Serve t rw req,
                 [Printed ("forwarding request to address "
                             ++ quote (Address t) ++ newline)%string;
                  Forwarded t req]))
             targets reqs)
          lb'
    | Panicked p lb' => Panicked p lb'
    | Spinning => Spinning
    end.
Proof.
  revert lb. induction reqs as [|[rw req] rest IH]; intros lb; [done|].
  simpl. unfold serveProxy.
  destruct (getNextAvailableServer budget lb) as [t lb1| |]; [|done..].
  rewrite IH. by destruct (calls budget (length rest) lb1).
Qed.

End Requests.

(** ** The program of [main] *)

Section Program.

Context {Request ResponseWriter : Type}.
Variables URL ReverseProxy : Type.
Variable url_Parse : string -> option URL * option string.
Variable NewSingleHostReverseProxy : option URL -> ReverseProxy.
Variable ServeHTTP : ReverseProxy -> ResponseWriter -> Request -> ResponseWriter.
Variable quote : string -> string.

Abbreviation simple := (simpleServer_Server ReverseProxy ServeHTTP).
Abbreviation new_server := (newSimpleServer URL ReverseProxy url_Parse
                          NewSingleHostReverseProxy).
Abbreviation new_servers := (newSimpleServers URL ReverseProxy url_Parse
                           NewSingleHostReverseProxy).
Abbreviation start := (main_with URL ReverseProxy url_Parse
                     NewSingleHostReverseProxy).

Implicit Types (lb : LoadBalancer (simpleServer ReverseProxy)).

(** The server [newSimpleServer] builds for an address that parses, and
    the line [serveProxy] prints for a target of a given address. *)
Abbreviation built := (fun a : string =>
  mkSimpleServer a (NewSingleHostReverseProxy (url_Parse a).1)).
Abbreviation forwarding a :=
  ("forwarding request to address " ++ quote a ++ newline)%string.

Lemma new_server_built a :
  (url_Parse a).2 = None -> new_server a = Running (built a) [].
Proof.
  unfold newSimpleServer. destruct (url_Parse a) as [u e]. simpl.
  by intros ->.
Qed.

Lemma new_servers_built addrs :
  (forall a, a ∈ addrs -> (url_Parse a).2 = None) ->
  new_servers addrs = Running (built <$> addrs) [].
Proof.
  induction addrs as [|a rest IH]; intros Hok; [done|].
  simpl. rewrite new_server_built by (apply Hok; left).
  simpl. rewrite IH by (intros a' Ha'; apply Hok; by right). done.
Qed.

Lemma new_servers_first_error ok bad rest msg :
  (forall a, a ∈ ok -> (url_Parse a).2 = None) ->
  (url_Parse bad).2 = Some msg ->
  new_servers (ok ++ bad :: rest) =
    Exited 1 [("error: " ++ msg ++ newline)%string].
Proof.
  intros Hok Hbad. induction ok as [|a ok IH]; simpl.
  - by rewrite (new_server_fails _ _ _ _ _ _ Hbad).
  - rewrite new_server_built by (apply Hok; left).
    simpl. rewrite IH by (intros a' Ha'; apply Hok; by right). done.
Qed.

Lemma requests_simple (budget : nat) lb
    (reqs : list (ResponseWriter * Request)) :
  servers lb <> [] ->
  0 <= roundRobinCount lb <= int_max ->
  roundRobinCount lb + Z.of_nat (length reqs) <= int_max + 1 ->
  exists results,
    requests (Server0 := simple) quote budget lb reqs =
      Returned results
        (at_cursor lb (wrap (roundRobinCount lb + Z.of_nat (length reqs)))) /\
    length results = length reqs /\
    forall k rw req,
      reqs !! k = Some (rw, req) ->
      exists s,
        servers lb !! Z.to_nat ((roundRobinCount lb + Z.of_nat k) mod len lb)
          = Some s /\
        results !! k =
          Some (ServeHTTP (proxy s) rw req,
                [Printed ("forwarding request to address "
                            ++ quote (addr s) ++ newline)%string;
                 Forwarded s req]).
Proof.
  revert lb. induction reqs as [|[rw req] rest IH]; intros lb Hne Hc Hmax.
  - exists []. simpl. rewrite Z.add_0_r, wrap_id, at_cursor_self
      by (pose proof int_min_neg; unfold in_range; lia).
    split; [done|split; [done|]]. intros k rw req Hk. done.
  - destruct (candidate_nonneg lb)
      as (s & Hcand & Hs); [lia|done|].
    pose proof (call_alive (Server0 := simple) budget lb s Hcand eq_refl)
      as Hcall.
    simpl length in Hmax.
    destruct rest as [|r rest].
    { eexists [_]. simpl requests. unfold serveProxy.
      rewrite Hcall, bump_at_cursor.
      split; [done|split; [done|]].
      intros [|k] rw' req' Hk; [|done]. injection Hk as -> ->.
      exists s. by rewrite Z.add_0_r. }
    simpl length in Hmax.
    rewrite bump_in_range in Hcall by lia.
    destruct (IH (at_cursor lb (roundRobinCount lb + 1)))
      as (rs & Hr & Hlen & Hk);
      [done | simpl; lia | simpl length; simpl roundRobinCount; lia |].
    eexists (_ :: rs). 
    change (requests quote budget lb ((rw, req) :: r :: rest)) with
      (match serveProxy (Server0 := simple) quote budget lb rw req with
       | Returned r0 lb1 =>
           match requests (Server0 := simple) quote budget lb1 (r :: rest) with
           | Returned rs lb2 => Returned (r0 :: rs) lb2
           | Panicked p lb2 => Panicked p lb2
           | Spinning => Spinning
           end
       | Panicked p lb1 => Panicked p lb1
       | Spinning => Spinning
       end).
    unfold serveProxy at 1. rewrite Hcall, Hr.
    simpl roundRobinCount. rewrite at_cursor_idem. split; [|split].
    + do 3 f_equal. simpl length. lia.
    + simpl. by rewrite Hlen.
    + intros [|k] rw' req' Hlook.
      * injection Hlook as -> ->. exists s. by rewrite Z.add_0_r.
      * destruct (Hk k rw' req' Hlook) as (s' & Hs' & Hres).
        exists s'. split; [|done].
        rewrite <- Hs'. symmetry. exact (slot_succ lb k).
Qed.

(** X10. On a non-empty pool of [simpleServer]s, from a non-negative
    cursor c that the requests do not take beyond the largest [int]
    (c + number of requests <= MaxInt64 + 1), every request of a sequence
    handled one after the other is served, under any budget: the k-th,
    counted from 0, goes to [servers[(c + k) mod len]], its response is
    what [ServeHTTP] of that server's proxy makes of it, and what is
    printed is the line quoting that server's address; the cursor ends at
    c + the number of requests. *)
Theorem simple_pool_requests (budget : nat) lb
    (reqs : list (ResponseWriter * Request)) :
  servers lb <> [] ->
  0 <= roundRobinCount lb <= int_max ->
  roundRobinCount lb + Z.of_nat (length reqs) <= int_max + 1 ->
  exists results,
    requests (Server0 := simple) quote budget lb reqs =
      Returned results
        (at_cursor lb (wrap (roundRobinCount lb + Z.of_nat (length reqs)))) /\
    length results = length reqs /\
    forall k rw req,
      reqs !! k = Some (rw, req) ->
      exists s,
        servers lb !! Z.to_nat ((roundRobinCount lb + Z.of_nat k) mod len lb)
          = Some s /\
        results !! k =
          Some (ServeHTTP (proxy s) rw req,
                [Printed (forwarding (addr s)); Forwarded s req]).
Proof. exact (requests_simple budget lb reqs). Qed.

(** X11. [main] reaches [http.ListenAndServe] exactly when [url.Parse]
    accepts every address of the list. It has then printed the single
    line [serving requests at 'localhost:<port>'], and the balancer has
    the given port, the cursor 0 and one server for each address, in the
    order of the list, each bound to the proxy of its parsed URL and
    answering [Address] with its address. *)
Theorem startup_succeeds_iff (addrs : list string) (p : string) :
  ((forall a, a ∈ addrs -> (url_Parse a).2 = None) <->
   exists lb out, start addrs p = Running lb out) /\
  (forall lb out,
      start addrs p = Running lb out ->
      lb = NewLoadBalancer p (built <$> addrs) /\
      out = [("serving requests at 'localhost:" ++ p ++ "'"
                ++ newline)%string] /\
      Address (Server := simple) <$> servers lb = addrs /\
      length (servers lb) = length addrs /\
      roundRobinCount lb = 0 /\ port lb = p).
Proof.
  assert ((forall a, a ∈ addrs -> (url_Parse a).2 = None) ->
          start addrs p =
            Running (NewLoadBalancer p (built <$> addrs))
              [("serving requests at 'localhost:" ++ p ++ "'"
                  ++ newline)%string])
    as Hstart.
  { intros Hok. unfold main_with. by rewrite new_servers_built. }
  assert ((exists lb out, start addrs p = Running lb out) ->
          forall a, a ∈ addrs -> (url_Parse a).2 = None) as Hback.
  { intros (lb & out & Hrun) a Ha.
    destruct ((url_Parse a).2) as [msg|] eqn:E; [exfalso|done].
    destruct (new_servers_fail _ _ url_Parse NewSingleHostReverseProxy
                addrs a msg Ha E) as (a' & msg' & _ & _ & Hf).
    unfold main_with in Hrun. by rewrite Hf in Hrun. }
  split; [split|].
  - intros Hok. eexists _, _. by apply Hstart.
  - exact Hback.
  - intros lb out Hrun.
    assert (exists lb out, start addrs p = Running lb out) as Hok
      by by eexists _, _.
    pose proof (Hstart (Hback Hok)) as Hrun'. rewrite Hrun' in Hrun.
    injection Hrun as <- <-.
    split; [done|split; [done|]]. simpl.
    split; [|split; [|done]].
    + rewrite <- list_fmap_compose. by rewrite <- (list_fmap_id addrs) at 2.
    + by rewrite length_fmap.
Qed.

(** X12. When [url.Parse] rejects an address and accepts all those
    before it in the list, [main] exits with status 1 having printed only
    [error: <message>] for that address, whatever the addresses after
    it. *)
Theorem startup_reports_first_error (ok rest : list string)
    (bad msg p : string) :
  (forall a, a ∈ ok -> (url_Parse a).2 = None) ->
  (url_Parse bad).2 = Some msg ->
  start (ok ++ bad :: rest) p =
    Exited 1 [("error: " ++ msg ++ newline)%string].
Proof.
  intros Hok Hbad. unfold main_with.
  by rewrite (new_servers_first_error ok bad rest msg).
Qed.

(** X13. After a successful start-up over a non-empty list of N
    addresses, requests being handled one after the other (no more of them
    than MaxInt64 + 1), the k-th request, counted from 0, is forwarded
    through the proxy built for address number k mod N of the list, and
    the line printed quotes that address. *)
Theorem program_serves_in_turn (addrs : list string) (p : string) lb out
    (budget : nat) (reqs : list (ResponseWriter * Request)) :
  start addrs p = Running lb out ->
  addrs <> [] ->
  Z.of_nat (length reqs) <= int_max + 1 ->
  exists results,
    requests (Server0 := simple) quote budget lb reqs =
      Returned results (at_cursor lb (wrap (Z.of_nat (length reqs)))) /\
    length results = length reqs /\
    forall k rw req,
      reqs !! k = Some (rw, req) ->
      exists a,
        addrs !! (k mod length addrs)%nat = Some a /\
        results !! k =
          Some (ServeHTTP (NewSingleHostReverseProxy (url_Parse a).1) rw req,
                [Printed (forwarding a); Forwarded (built a) req]).
Proof.
  intros Hrun Hne Hmax.
  assert (forall a, a ∈ addrs -> (url_Parse a).2 = None) as Hok.
  { intros a Ha.
    destruct ((url_Parse a).2) as [msg|] eqn:E; [exfalso|done].
    destruct (new_servers_fail _ _ url_Parse NewSingleHostReverseProxy
                addrs a msg Ha E) as (a' & msg' & _ & _ & Hf).
    unfold main_with in Hrun. by rewrite Hf in Hrun. }
  unfold main_with in Hrun. rewrite new_servers_built in Hrun by done.
  injection Hrun as <- <-.
  destruct (requests_simple budget
              (NewLoadBalancer p (built <$> addrs)) reqs)
    as (results & Hres & Hlen & Hk).
  { simpl. by destruct addrs. }
  { simpl. pose proof int_min_neg. unfold int_max. lia. }
  { simpl. lia. }
  exists results. split; [exact Hres|split; [exact Hlen|]].
  intros k rw req Hlook.
  destruct (Hk k rw req Hlook) as (s & Hs & Hr).
  unfold len in Hs.
  change (roundRobinCount (NewLoadBalancer p (built <$> addrs))) with 0 in Hs.
  change (servers (NewLoadBalancer p (built <$> addrs)))
    with (built <$> addrs) in Hs.
  rewrite Z.add_0_l, length_fmap, <- Nat2Z.inj_mod, Nat2Z.id in Hs.
  apply list_lookup_fmap_Some in Hs as (a & -> & Ha).
  exists a. done.
Qed.

End Program.

(** ** Scenarios

    The claims at concrete pools: the end-to-end scenario of the
    specification, the behaviour at the edge of the [int] range, and the
    theorems above applied to concrete balancers. *)

Import Probe.

(** Pool [A, B, C] with [C] not alive, four requests after start-up: the
    targets chosen are A, B, A, B and the cursor goes 0, 1, 2, 4, 5 (the
    third call skips [C]). *)
Example end_to_end_scenario :
  calls 1 4 (NewLoadBalancer "8000" one_down) =
    Returned [A; B; A; B] (balancer 5 one_down) /\
  cursors 1 4 (NewLoadBalancer "8000" one_down) =
    Returned [0; 1; 2; 4; 5] (balancer 5 one_down).
Proof. split; reflexivity. Qed.

(** The last increment of a run may be the one that wraps around: three
    calls made two below the largest [int] all return. *)
Example last_increment_may_wrap :
  calls 0 3 (balancer (int_max - 2) all_up) =
    Returned [C; A; B] (balancer int_min all_up).
Proof. reflexivity. Qed.

(** With every target down the call is still in its loop after a
    thousand iterations. *)
Example all_down_spins :
  getNextAvailableServer 1000 (fresh all_down) = Spinning.
Proof. reflexivity. Qed.

(** *** Reaching the edge of the [int] range

    The balancers at which the claims fail are the ones a freshly built
    balancer turns into after enough calls. The numbers of calls are far
    too large to be run; they are reasoned about, not computed. *)

Lemma reach_all_up (budget : nat) :
  exists returned,
    calls budget (Z.to_nat (int_max - 1)) (fresh all_up) =
      Returned returned (balancer (int_max - 1) all_up).
Proof.
  pose proof (calls_rounds_all_alive (Z.to_nat ((int_max - 1) / 3))
                (fresh all_up) budget) as Hrounds.
  assert (Z.of_nat (Z.to_nat ((int_max - 1) / 3)) = (int_max - 1) / 3) as Hq
    by (apply Z2Nat.id; vm_compute; discriminate).
  rewrite Hq in Hrounds.
  change (len (fresh all_up)) with 3 in Hrounds.
  change (roundRobinCount (fresh all_up)) with 0 in Hrounds.
  change (wrap (0 + (int_max - 1) / 3 * 3)) with (int_max - 1) in Hrounds.
  change (length (servers (fresh all_up))) with 3%nat in Hrounds.
  replace (Z.to_nat ((int_max - 1) / 3) * 3)%nat with (Z.to_nat (int_max - 1))
    in Hrounds
    by (rewrite <- (Z2Nat.inj_mul _ 3) by (vm_compute; discriminate);
        reflexivity).
  eexists. apply Hrounds.
  - discriminate.
  - repeat constructor.
  - split; vm_compute; discriminate.
  - vm_compute; discriminate.
Qed.

Lemma reach_single (budget : nat) :
  exists returned,
    calls budget (Z.to_nat int_max) (fresh [A]) =
      Returned returned (balancer int_max [A]).
Proof.
  pose proof (calls_rounds_all_alive (Z.to_nat int_max) (fresh [A]) budget)
    as Hrounds.
  rewrite Z2Nat.id in Hrounds by (vm_compute; discriminate).
  change (len (fresh [A])) with 1 in Hrounds.
  change (roundRobinCount (fresh [A])) with 0 in Hrounds.
  change (wrap (0 + int_max * 1)) with int_max in Hrounds.
  change (length (servers (fresh [A]))) with 1%nat in Hrounds.
  rewrite Nat.mul_1_r in Hrounds.
  eexists. apply Hrounds.
  - discriminate.
  - repeat constructor.
  - split; vm_compute; discriminate.
  - vm_compute; discriminate.
Qed.

Lemma reach_one_down :
  exists returned,
    calls 1 (Z.to_nat (1 + (int_max - 1) / 3 * 2)) (fresh one_down) =
      Returned returned (balancer int_max one_down).
Proof.
  pose proof (calls_rounds (Z.to_nat ((int_max - 1) / 3))
                (balancer 1 one_down) 1%nat) as Hrounds.
  assert (Z.of_nat (Z.to_nat ((int_max - 1) / 3)) = (int_max - 1) / 3) as Hq
    by (apply Z2Nat.id; vm_compute; discriminate).
  rewrite Hq in Hrounds.
  change (len (balancer 1 one_down)) with 3 in Hrounds.
  change (roundRobinCount (balancer 1 one_down)) with 1 in Hrounds.
  change (wrap (1 + (int_max - 1) / 3 * 3)) with int_max in Hrounds.
  change (length (filter alive (servers (balancer 1 one_down))))
    with 2%nat in Hrounds.
  change (length (filter down (servers (balancer 1 one_down))))
    with 1%nat in Hrounds.
  eexists.
  replace (Z.to_nat (1 + (int_max - 1) / 3 * 2))
    with (1 + Z.to_nat ((int_max - 1) / 3) * 2)%nat.
  - eapply (calls_app 1 1 _ (fresh one_down) [A] _ (balancer 1 one_down)).
    + reflexivity.
    + apply Hrounds.
      * exists A. split; reflexivity.
      * lia.
      * split; vm_compute; discriminate.
      * vm_compute; discriminate.
  - rewrite <- (Z2Nat.inj_mul _ 2) by (vm_compute; discriminate).
    rewrite <- (Z2Nat.inj_add 1) by (vm_compute; discriminate).
    reflexivity.
Qed.

Lemma all_down_from_fresh :
  getNextAvailableServer (Z.to_nat (int_max + 2)) (fresh all_down) =
    Panicked (IndexOutOfRange (-1) 2) (balancer (int_min + 1) all_down).
Proof.
  replace (Z.to_nat (int_max + 2)) with (Z.to_nat int_max + 2)%nat
    by (rewrite <- (Z2Nat.inj_add _ 2) by (vm_compute; discriminate);
        reflexivity).
  rewrite call_down_steps.
  - rewrite Z2Nat.id by (vm_compute; discriminate). reflexivity.
  - repeat constructor.
  - discriminate.
  - simpl. lia.
  - rewrite Z2Nat.id by (vm_compute; discriminate). simpl. lia.
Qed.

(** *** The claims at the edge *)



(** C2 as stated fails. The pool has N = 3 targets, all alive. A freshly
    built balancer is asked M = 2^63 + 1 = 3 * 3074457345618258603 times:
    after 2^63 - 2 calls its cursor is one below the largest [int], and the
    third call from there, the last of the M, panics on index -2 instead
    of returning [C]. *)
Lemma fairness_fails_at_overflow :
  Forall alive (servers (fresh all_up)) /\
  Z.to_nat (int_max + 2) =
    (Z.to_nat ((int_max + 2) / 3) * length (servers (fresh all_up)))%nat /\
  (forall budget,
      calls budget 3 (balancer (int_max - 1) all_up) =
        Panicked (IndexOutOfRange (-2) 3) (balancer int_min all_up)) /\
  (forall budget,
      calls budget (Z.to_nat (int_max + 2)) (fresh all_up) =
        Panicked (IndexOutOfRange (-2) 3) (balancer int_min all_up)) /\
  ~ (exists budget returned lb',
        calls budget (Z.to_nat (int_max + 2)) (fresh all_up) =
          Returned returned lb').
Proof.
  assert (forall budget,
      calls budget 3 (balancer (int_max - 1) all_up) =
        Panicked (IndexOutOfRange (-2) 3) (balancer int_min all_up)) as Hedge.
  { intros [|b]; reflexivity. }
  assert (forall budget,
      calls budget (Z.to_nat (int_max + 2)) (fresh all_up) =
        Panicked (IndexOutOfRange (-2) 3) (balancer int_min all_up)) as Hrun.
  { intros budget. destruct (reach_all_up budget) as [returned Hreach].
    replace (Z.to_nat (int_max + 2)) with (Z.to_nat (int_max - 1) + 3)%nat
      by (rewrite <- (Z2Nat.inj_add _ 3) by (vm_compute; discriminate);
          reflexivity).
    exact (calls_app_panicked _ _ _ _ _ _ _ _ Hreach (Hedge budget)). }
  split; [repeat constructor|]. split.
  { change (length (servers (fresh all_up))) with 3%nat.
    rewrite <- (Z2Nat.inj_mul _ 3) by (vm_compute; discriminate).
    reflexivity. }
  split; [exact Hedge | split; [exact Hrun|]].
  intros (budget & returned & lb' & Hr). rewrite Hrun in Hr. discriminate.
Qed.

(** C3 as stated fails. Exactly one of the N = 3 targets is not alive.
    After 1 + 2 * 3074457345618258602 calls the cursor of a freshly built
    balancer is the largest [int]; of the next N - 1 = 2 consecutive calls
    the first returns [B] and the second panics, so that [A] is not
    returned. *)
Lemma skip_fails_at_overflow :
  length (filter down (servers (fresh one_down))) = 1%nat /\
  (exists returned,
      calls 1 (Z.to_nat (1 + (int_max - 1) / 3 * 2)) (fresh one_down) =
        Returned returned (balancer int_max one_down)) /\
  (forall budget,
      getNextAvailableServer budget (balancer int_max one_down) =
        Returned B (balancer int_min one_down)) /\
  (forall budget,
      calls budget 2 (balancer int_max one_down) =
        Panicked (IndexOutOfRange (-2) 3) (balancer int_min one_down)) /\
  ~ (exists budget returned lb',
        calls budget 2 (balancer int_max one_down) = Returned returned lb').
Proof.
  assert (forall budget,
      calls budget 2 (balancer int_max one_down) =
        Panicked (IndexOutOfRange (-2) 3) (balancer int_min one_down)) as Hp.
  { intros [|b]; reflexivity. }
  split; [reflexivity|]. split; [exact reach_one_down|].
  split; [intros [|b]; reflexivity | split; [exact Hp|]].
  intros (budget & returned & lb' & Hr). rewrite Hp in Hr. discriminate.
Qed.

(** C4 as stated fails. Every target of the pool is not alive and the
    loop ends with a panic: in its second iteration when the cursor
    is the largest [int], and in iteration 2^63 + 1 of the first call made
    on a freshly built balancer. *)
Lemma all_down_loop_ends :
  Forall down (servers (fresh all_down)) /\
  (forall budget, (2 <= budget)%nat ->
      getNextAvailableServer budget (balancer int_max all_down) =
        Panicked (IndexOutOfRange (-1) 2) (balancer (int_min + 1) all_down)) /\
  getNextAvailableServer (Z.to_nat (int_max + 2)) (fresh all_down) =
    Panicked (IndexOutOfRange (-1) 2) (balancer (int_min + 1) all_down) /\
  ~ (forall budget,
        getNextAvailableServer budget (fresh all_down) = Spinning).
Proof.
  split; [repeat constructor|]. split.
  { intros [|[|b]] Hb; [lia | lia | reflexivity]. }
  split; [exact all_down_from_fresh|].
  intros Hspin. specialize (Hspin (Z.to_nat (int_max + 2))).
  rewrite all_down_from_fresh in Hspin. discriminate.
Qed.

(** C5 as stated fails. After 2^63 - 1 calls the cursor of a freshly built
    balancer is the largest [int]; the next call returns and leaves the
    cursor at the smallest [int]. *)
Lemma cursor_decreases_at_overflow :
  (exists returned,
      calls 0 (Z.to_nat int_max) (fresh [A]) =
        Returned returned (balancer int_max [A])) /\
  (forall budget,
      getNextAvailableServer budget (balancer int_max [A]) =
        Returned A (balancer int_min [A])) /\
  roundRobinCount (balancer int_min [A]) <
  roundRobinCount (balancer int_max [A]).
Proof.
  split; [exact (reach_single 0)|].
  split; [intros [|b]; reflexivity | reflexivity].
Qed.

(** C6 as stated fails. After 2^63 calls a freshly built balancer over
    three live targets has its cursor at the smallest [int]: its target
    list is not empty, [cursor % len] is -2, and the first lookup of the
    next call panics. *)
Lemma index_invalid_after_overflow :
  (exists returned,
      calls 0 (Z.to_nat (int_max + 1)) (fresh all_up) =
        Returned returned (balancer int_min all_up)) /\
  servers (balancer int_min all_up) <> [] /\
  Z.rem (roundRobinCount (balancer int_min all_up))
        (len (balancer int_min all_up)) = -2 /\
  candidate (balancer int_min all_up) = inr (IndexOutOfRange (-2) 3) /\
  (forall budget,
      getNextAvailableServer budget (balancer int_min all_up) =
        Panicked (IndexOutOfRange (-2) 3) (balancer int_min all_up)).
Proof.
  split.
  { destruct (reach_all_up 0) as [returned Hreach].
    exists (returned ++ [A; B]).
    replace (Z.to_nat (int_max + 1)) with (Z.to_nat (int_max - 1) + 2)%nat
      by (rewrite <- (Z2Nat.inj_add _ 2) by (vm_compute; discriminate);
          reflexivity).
    apply (calls_app _ _ _ _ _ _ _ _ Hreach). reflexivity. }
  split; [discriminate|].
  split; [reflexivity|]. split; [reflexivity|].
  intros budget. reflexivity.
Qed.

(** *** The theorems at concrete balancers *)


Lemma round_robin_fairness_witness :
  servers (fresh all_up) <> [] /\
  Forall alive (servers (fresh all_up)) /\
  0 <= roundRobinCount (fresh all_up) <= int_max /\
  roundRobinCount (fresh all_up)
    + Z.of_nat (2 * length (servers (fresh all_up))) <= int_max + 1 /\
  exists returned lb',
    calls 0 (2 * length (servers (fresh all_up))) (fresh all_up) =
      Returned returned lb' /\
    returned =
      mjoin (replicate 2 (rotate (position (fresh all_up))
                                 (servers (fresh all_up)))) /\
    (position (fresh all_up) = 0%nat ->
     returned = mjoin (replicate 2 (servers (fresh all_up)))) /\
    (forall (P : target -> Prop) (dec : forall x, Decision (P x)),
        length (filter P returned) =
        (2 * length (filter P (servers (fresh all_up))))%nat).
Proof.
  assert (servers (fresh all_up) <> []) as H1 by discriminate.
  assert (Forall alive (servers (fresh all_up))) as H2 by repeat constructor.
  assert (0 <= roundRobinCount (fresh all_up) <= int_max) as H3
    by (split; vm_compute; discriminate).
  assert (roundRobinCount (fresh all_up)
          + Z.of_nat (2 * length (servers (fresh all_up))) <= int_max + 1)
    as H4 by (vm_compute; discriminate).
  split; [exact H1 | split; [exact H2 | split; [exact H3 | split; [exact H4|]]]].
  exact (round_robin_fairness 0 2 (fresh all_up) H1 H2 H3 H4).
Defined.

Lemma dead_target_skip_witness :
  length (filter down (servers (fresh one_down))) = 1%nat /\
  0 <= roundRobinCount (fresh one_down) <= int_max /\
  roundRobinCount (fresh one_down) + len (fresh one_down) <= int_max + 1 /\
  (1 <= 1)%nat /\
  (forall b c t lb',
      getNextAvailableServer b (at_cursor (fresh one_down) c) = Returned t lb' ->
      alive t) /\
  exists returned lb',
    calls 1 (length (servers (fresh one_down)) - 1) (fresh one_down) =
      Returned returned lb' /\
    returned = filter alive (rotate (position (fresh one_down))
                                    (servers (fresh one_down))) /\
    returned ≡ₚ filter alive (servers (fresh one_down)).
Proof.
  assert (length (filter down (servers (fresh one_down))) = 1%nat) as H1
    by reflexivity.
  assert (0 <= roundRobinCount (fresh one_down) <= int_max) as H2
    by (split; vm_compute; discriminate).
  assert (roundRobinCount (fresh one_down) + len (fresh one_down)
          <= int_max + 1) as H3 by (vm_compute; discriminate).
  assert (1 <= 1)%nat as H4 by lia.
  split; [exact H1 | split; [exact H2 | split; [exact H3 | split; [exact H4|]]]].
  exact (dead_target_skip 1 (fresh one_down) H1 H2 H3 H4).
Defined.

Lemma selection_termination_witness :
  servers (fresh one_down) <> [] /\
  in_range (roundRobinCount (fresh one_down)) /\
  (forall u, u ∈ servers (fresh one_down) -> alive u ->
     (forall budget, (length (servers (fresh one_down)) - 1 <= budget)%nat ->
        getNextAvailableServer budget (fresh one_down) <> Spinning) /\
     (0 <= roundRobinCount (fresh one_down) ->
      roundRobinCount (fresh one_down) + len (fresh one_down) <= int_max + 1 ->
      exists t lb',
        alive t /\
        forall budget, (length (servers (fresh one_down)) - 1 <= budget)%nat ->
          getNextAvailableServer budget (fresh one_down) = Returned t lb')) /\
  (Forall down (servers (fresh one_down)) ->
     (forall budget t lb',
         getNextAvailableServer budget (fresh one_down) <> Returned t lb') /\
     (forall budget,
         0 <= roundRobinCount (fresh one_down) ->
         roundRobinCount (fresh one_down) + Z.of_nat budget <= int_max ->
         getNextAvailableServer budget (fresh one_down) = Spinning)).
Proof.
  assert (servers (fresh one_down) <> []) as H1 by discriminate.
  assert (in_range (roundRobinCount (fresh one_down))) as H2
    by (split; vm_compute; discriminate).
  split; [exact H1 | split; [exact H2|]].
  exact (selection_termination (fresh one_down) H1 H2).
Defined.

Lemma cursor_progress_witness :
  0 <= roundRobinCount (fresh one_down) <= int_max /\
  (forall t lb',
      getNextAvailableServer 1 (fresh one_down) = Returned t lb' ->
      0 <= roundRobinCount lb' ->
      roundRobinCount (fresh one_down) < roundRobinCount lb') /\
  (forall cs lb',
      cursors 1 4 (fresh one_down) = Returned cs lb' ->
      Forall (Z.le 0) cs ->
      StronglySorted Z.lt cs /\ NoDup cs) /\
  (roundRobinCount (fresh one_down) + Z.of_nat 4 * len (fresh one_down)
     <= int_max ->
   forall cs lb',
     cursors 1 4 (fresh one_down) = Returned cs lb' -> Forall (Z.le 0) cs).
Proof.
  assert (0 <= roundRobinCount (fresh one_down) <= int_max) as H1
    by (split; vm_compute; discriminate).
  split; [exact H1|].
  exact (cursor_progress 1 4 (fresh one_down) H1).
Defined.

Lemma index_validity_witness :
  servers (balancer 7 all_up) <> [] /\
  0 <= roundRobinCount (balancer 7 all_up) /\
  (0 <= Z.rem (roundRobinCount (balancer 7 all_up)) (len (balancer 7 all_up))
     < len (balancer 7 all_up) /\
   is_Some (servers (balancer 7 all_up)
              !! Z.to_nat (Z.rem (roundRobinCount (balancer 7 all_up))
                                 (len (balancer 7 all_up)))) /\
   exists s, candidate (balancer 7 all_up) = inl s) /\
  (forall budget p lb',
      roundRobinCount (balancer 7 all_up) + Z.of_nat budget <= int_max ->
      getNextAvailableServer budget (balancer 7 all_up) <> Panicked p lb').
Proof.
  assert (servers (balancer 7 all_up) <> []) as H1 by discriminate.
  assert (0 <= roundRobinCount (balancer 7 all_up)) as H2 by (simpl; lia).
  split; [exact H1 | split; [exact H2|]].
  exact (index_validity (balancer 7 all_up) H1 H2).
Defined.

Lemma dispatch_contract_witness :
  serveProxy id 1 (balancer 2 one_down) tt tt =
    Returned (tt, [Printed ("forwarding request to address A" ++ newline);
                   Forwarded A tt])
             (balancer 4 one_down) /\
  exists t,
    getNextAvailableServer 1 (balancer 2 one_down) =
      Returned t (balancer 4 one_down) /\
    tt = Serve t tt tt /\
    forwards [Printed ("forwarding request to address A" ++ newline);
              Forwarded A tt] = [(t, tt)] /\
    servers (balancer 4 one_down) = servers (balancer 2 one_down) /\
    IsAlive <$> servers (balancer 4 one_down) =
    IsAlive <$> servers (balancer 2 one_down).
Proof.
  assert (serveProxy id 1 (balancer 2 one_down) tt tt =
    Returned (tt, [Printed ("forwarding request to address A" ++ newline);
                   Forwarded A tt])
             (balancer 4 one_down)) as H1 by reflexivity.
  split; [exact H1|].
  exact (proj1 (dispatch_contract id 1 (balancer 2 one_down) tt tt) _ _ _ H1).
Defined.

Lemma initial_selection_witness :
  all_up = A :: [B; C] /\ alive A /\
  getNextAvailableServer 0 (NewLoadBalancer "8000" all_up) =
    Returned A (at_cursor (NewLoadBalancer "8000" all_up) 1).
Proof.
  assert (all_up = A :: [B; C]) as H1 by reflexivity.
  assert (alive A) as H2 by reflexivity.
  split; [exact H1 | split; [exact H2|]].
  exact (proj2 (proj2 (proj2 (initial_selection 0 "8000" all_up))) A [B; C] H1 H2).
Defined.

Lemma startup_validation_witness :
  (parse not_a_url).2 = Some "net/url: invalid control character in URL"%string /\
  newSimpleServer string string parse (default EmptyString) not_a_url =
    Exited 1 [("error: net/url: invalid control character in URL"
                 ++ newline)%string] /\
  (forall s out,
      newSimpleServer string string parse (default EmptyString) not_a_url
      <> Running s out) /\
  (forall addrs p,
      not_a_url ∈ addrs ->
      (exists a' msg',
          a' ∈ addrs /\ (parse a').2 = Some msg' /\
          main_with string string parse (default EmptyString) addrs p =
            Exited 1 [("error: " ++ msg' ++ newline)%string]) /\
      (forall lb out,
          main_with string string parse (default EmptyString) addrs p
          <> Running lb out)).
Proof.
  assert ((parse not_a_url).2 =
          Some "net/url: invalid control character in URL"%string) as H1
    by reflexivity.
  split; [exact H1|].
  exact (startup_validation string string parse (default EmptyString)
           not_a_url _ H1).
Defined.

(** ** The further properties at concrete pools *)

Import Sample.

Lemma empty_pool_divides_by_zero_witness :
  servers (fresh []) = [] /\
  serveProxy id 0 (fresh []) tt tt = Panicked DivideByZero (fresh []).
Proof.
  assert (servers (fresh []) = []) as H1 by reflexivity.
  split; [exact H1|].
  exact (proj1 (proj2 (proj2 (empty_pool_divides_by_zero id 0 (fresh []))))
           tt tt H1).
Defined.

Lemma panic_is_permanent_witness :
  getNextAvailableServer 2 (balancer int_max all_down) =
    Panicked (IndexOutOfRange (-1) 2) (balancer (int_min + 1) all_down) /\
  port (balancer (int_min + 1) all_down) = port (balancer int_max all_down) /\
  servers (balancer (int_min + 1) all_down) =
    servers (balancer int_max all_down) /\
  forall budget',
    getNextAvailableServer budget' (balancer (int_min + 1) all_down) =
      Panicked (IndexOutOfRange (-1) 2) (balancer (int_min + 1) all_down) /\
    (forall rw req,
        serveProxy id budget' (balancer (int_min + 1) all_down) rw req =
          Panicked (IndexOutOfRange (-1) 2)
                   (balancer (int_min + 1) all_down)) /\
    (forall m,
        calls budget' (S m) (balancer (int_min + 1) all_down) =
          Panicked (IndexOutOfRange (-1) 2)
                   (balancer (int_min + 1) all_down)).
Proof.
  assert (getNextAvailableServer 2 (balancer int_max all_down) =
            Panicked (IndexOutOfRange (-1) 2)
                     (balancer (int_min + 1) all_down)) as H1
    by (vm_compute; reflexivity).
  split; [exact H1|].
  exact (panic_is_permanent id 2 (balancer int_max all_down) _ _ H1).
Defined.

Lemma index_panic_is_negative_witness :
  getNextAvailableServer 0 (balancer (-1) all_up) =
    Panicked (IndexOutOfRange (-1) 3) (balancer (-1) all_up) /\
  3 = len (balancer (-1) all_up) /\
  -1 = Z.rem (roundRobinCount (balancer (-1) all_up)) 3 /\
  - 3 < -1 < 0 /\ roundRobinCount (balancer (-1) all_up) < 0.
Proof.
  assert (getNextAvailableServer 0 (balancer (-1) all_up) =
            Panicked (IndexOutOfRange (-1) 3) (balancer (-1) all_up)) as H1
    by reflexivity.
  split; [exact H1|].
  exact (index_panic_is_negative 0 (balancer (-1) all_up) _ _ _ H1).
Defined.

Lemma rotation_law_witness :
  servers (fresh all_up) <> [] /\
  Forall alive (servers (fresh all_up)) /\
  0 <= roundRobinCount (fresh all_up) <= int_max /\
  roundRobinCount (fresh all_up) + Z.of_nat 4 <= int_max + 1 /\
  exists returned,
    calls 0 4 (fresh all_up) =
      Returned returned
        (at_cursor (fresh all_up)
           (wrap (roundRobinCount (fresh all_up) + Z.of_nat 4))) /\
    length returned = 4%nat /\
    forall k, (k < 4)%nat ->
      is_Some (returned !! k) /\
      returned !! k =
        servers (fresh all_up)
          !! Z.to_nat ((roundRobinCount (fresh all_up) + Z.of_nat k)
                         mod len (fresh all_up)).
Proof.
  assert (servers (fresh all_up) <> []) as H1 by discriminate.
  assert (Forall alive (servers (fresh all_up))) as H2 by repeat constructor.
  assert (0 <= roundRobinCount (fresh all_up) <= int_max) as H3
    by (split; vm_compute; discriminate).
  assert (roundRobinCount (fresh all_up) + Z.of_nat 4 <= int_max + 1) as H4
    by (vm_compute; discriminate).
  split; [exact H1 | split; [exact H2 | split; [exact H3 | split; [exact H4|]]]].
  exact (rotation_law 0 4 (fresh all_up) H1 H2 H3 H4).
Defined.

Lemma live_targets_share_a_pass_witness :
  0 <= roundRobinCount (balancer 1 two_down) <= int_max /\
  roundRobinCount (balancer 1 two_down) + len (balancer 1 two_down)
    <= int_max + 1 /\
  (length (filter down (servers (balancer 1 two_down))) <= 2)%nat /\
  exists returned lb',
    calls 2 (length (filter alive (servers (balancer 1 two_down))))
      (balancer 1 two_down) = Returned returned lb' /\
    returned = filter alive (rotate (position (balancer 1 two_down))
                                    (servers (balancer 1 two_down))) /\
    returned ≡ₚ filter alive (servers (balancer 1 two_down)) /\
    (forall t, t ∈ returned <->
               t ∈ servers (balancer 1 two_down) /\ alive t) /\
    (NoDup (servers (balancer 1 two_down)) -> NoDup returned) /\
    port lb' = port (balancer 1 two_down) /\
    servers lb' = servers (balancer 1 two_down).
Proof.
  assert (0 <= roundRobinCount (balancer 1 two_down) <= int_max) as H1
    by (split; vm_compute; discriminate).
  assert (roundRobinCount (balancer 1 two_down) + len (balancer 1 two_down)
          <= int_max + 1) as H2 by (vm_compute; discriminate).
  assert (length (filter down (servers (balancer 1 two_down))) <= 2)%nat
    as H3 by (vm_compute; lia).
  split; [exact H1 | split; [exact H2 | split; [exact H3|]]].
  exact (live_targets_share_a_pass 2 (balancer 1 two_down) H1 H2 H3).
Defined.

Lemma skip_cost_witness :
  0 <= roundRobinCount (balancer 1 two_down) /\
  roundRobinCount (balancer 1 two_down) + Z.of_nat 2 <= int_max /\
  (forall j, (j < 2)%nat ->
     exists d, slot (balancer 1 two_down) j = Some d /\ down d) /\
  slot (balancer 1 two_down) 2 = Some C /\
  alive C /\
  getNextAvailableServer 1 (balancer 1 two_down) = Spinning /\
  getNextAvailableServer 2 (balancer 1 two_down) =
    Returned C (balancer 4 two_down).
Proof.
  assert (0 <= roundRobinCount (balancer 1 two_down)) as H1
    by (vm_compute; discriminate).
  assert (roundRobinCount (balancer 1 two_down) + Z.of_nat 2 <= int_max)
    as H2 by (vm_compute; discriminate).
  assert (forall j, (j < 2)%nat ->
            exists d, slot (balancer 1 two_down) j = Some d /\ down d) as H3.
  { intros [|[|j]] Hj; [exists B_down | exists C_down | lia];
      split; reflexivity. }
  assert (slot (balancer 1 two_down) 2 = Some C) as H4 by reflexivity.
  assert (alive C) as H5 by reflexivity.
  split; [exact H1 | split; [exact H2 | split; [exact H3 |
    split; [exact H4 | split; [exact H5|]]]]].
  split.
  - exact (skip_cost 2 1 (balancer 1 two_down) C H1 H2 H3 H4 H5).
  - exact (skip_cost 2 2 (balancer 1 two_down) C H1 H2 H3 H4 H5).
Defined.

Lemma single_target_pool_witness :
  alive A /\ down A_down /\
  getNextAvailableServer 0 (mkLB "8000" int_max [A]) =
    Returned A (mkLB "8000" (incr int_max) [A]) /\
  getNextAvailableServer 5 (mkLB "8000" int_max [A_down]) = Spinning.
Proof.
  assert (alive A) as H1 by reflexivity.
  assert (down A_down) as H2 by reflexivity.
  split; [exact H1 | split; [exact H2|]]. split.
  - exact (proj1 (single_target_pool 0 "8000" int_max A) H1).
  - exact (proj2 (single_target_pool 5 "8000" int_max A_down) H2).
Defined.

Lemma negative_cursor_breaks_witness :
  int_min <= roundRobinCount (balancer (-3) all_up) < 0 /\
  (2 <= length (servers (balancer (-3) all_up)))%nat /\
  (1 <= 1)%nat /\
  exists i lb',
    calls 1 2 (balancer (-3) all_up) =
      Panicked (IndexOutOfRange i (len (balancer (-3) all_up))) lb' /\
    i < 0 /\
    forall budget' m,
      calls budget' (S m) lb' =
        Panicked (IndexOutOfRange i (len (balancer (-3) all_up))) lb'.
Proof.
  assert (int_min <= roundRobinCount (balancer (-3) all_up) < 0) as H1
    by (split; [vm_compute; discriminate | reflexivity]).
  assert (2 <= length (servers (balancer (-3) all_up)))%nat as H2
    by (simpl; lia).
  assert (1 <= 1)%nat as H3 by lia.
  split; [exact H1 | split; [exact H2 | split; [exact H3|]]].
  exact (negative_cursor_breaks 1 (balancer (-3) all_up) H1 H2 H3).
Defined.

Lemma simple_pool_requests_witness :
  servers (mkLB "8000" 1 [a_example; b_example]) <> [] /\
  0 <= roundRobinCount (mkLB "8000" 1 [a_example; b_example]) <= int_max /\
  roundRobinCount (mkLB "8000" 1 [a_example; b_example])
    + Z.of_nat (length three_requests) <= int_max + 1 /\
  exists results,
    requests (Server0 := simpleServer_Server string serve_http) id 0
      (mkLB "8000" 1 [a_example; b_example]) three_requests =
      Returned results
        (at_cursor (mkLB "8000" 1 [a_example; b_example])
           (wrap (roundRobinCount (mkLB "8000" 1 [a_example; b_example])
                  + Z.of_nat (length three_requests)))) /\
    length results = length three_requests /\
    forall k rw req,
      three_requests !! k = Some (rw, req) ->
      exists s,
        servers (mkLB "8000" 1 [a_example; b_example])
          !! Z.to_nat ((roundRobinCount (mkLB "8000" 1 [a_example; b_example])
                        + Z.of_nat k)
                       mod len (mkLB "8000" 1 [a_example; b_example]))
          = Some s /\
        results !! k =
          Some (serve_http (proxy s) rw req,
                [Printed ("forwarding request to address "
                            ++ id (addr s) ++ newline)%string;
                 Forwarded s req]).
Proof.
  assert (servers (mkLB "8000" 1 [a_example; b_example]) <> []) as H1
    by discriminate.
  assert (0 <= roundRobinCount (mkLB "8000" 1 [a_example; b_example])
          <= int_max) as H2 by (split; vm_compute; discriminate).
  assert (roundRobinCount (mkLB "8000" 1 [a_example; b_example])
          + Z.of_nat (length three_requests) <= int_max + 1) as H3
    by (vm_compute; discriminate).
  split; [exact H1 | split; [exact H2 | split; [exact H3|]]].
  exact (simple_pool_requests string serve_http id 0
           (mkLB "8000" 1 [a_example; b_example]) three_requests H1 H2 H3).
Defined.

Lemma startup_reports_first_error_witness :
  (forall a, a ∈ ["https://www.facebook.com"%string] -> (parse a).2 = None) /\
  (parse not_a_url).2 =
    Some "net/url: invalid control character in URL"%string /\
  main_with string string parse proxy_to
    (["https://www.facebook.com"%string]
       ++ not_a_url :: ["https://www.bing.com"%string]) "8000" =
    Exited 1 [("error: net/url: invalid control character in URL"
                 ++ newline)%string].
Proof.
  assert (forall a, a ∈ ["https://www.facebook.com"%string] ->
                    (parse a).2 = None) as H1.
  { intros a Ha. apply list_elem_of_singleton in Ha. subst a. reflexivity. }
  assert ((parse not_a_url).2 =
          Some "net/url: invalid control character in URL"%string) as H2
    by reflexivity.
  split; [exact H1 | split; [exact H2|]].
  exact (startup_reports_first_error string string parse proxy_to
           ["https://www.facebook.com"%string] ["https://www.bing.com"%string]
           not_a_url _ "8000" H1 H2).
Defined.

Lemma startup_succeeds_iff_witness :
  main_with string string parse proxy_to
    ["https://a.example"; "https://b.example"]%string "8000" =
    Running (NewLoadBalancer "8000" [a_example; b_example])
      [("serving requests at 'localhost:8000'" ++ newline)%string] /\
  (forall a, a ∈ ["https://a.example"; "https://b.example"]%string ->
             (parse a).2 = None) /\
  Address (Server := simpleServer_Server string serve_http)
    <$> servers (NewLoadBalancer "8000" [a_example; b_example]) =
    ["https://a.example"; "https://b.example"]%string /\
  roundRobinCount (NewLoadBalancer "8000" [a_example; b_example]) = 0.
Proof.
  assert (main_with string string parse proxy_to
            ["https://a.example"; "https://b.example"]%string "8000" =
          Running (NewLoadBalancer "8000" [a_example; b_example])
            [("serving requests at 'localhost:8000'" ++ newline)%string])
    as H1 by reflexivity.
  pose proof (startup_succeeds_iff (Request := unit)
                (ResponseWriter := list string) string string parse
                proxy_to serve_http
                ["https://a.example"; "https://b.example"]%string "8000")
    as [Hiff Hshape].
  split; [exact H1|]. split.
  - apply (proj2 Hiff). eexists _, _. exact H1.
  - destruct (Hshape _ _ H1) as (_ & _ & Haddr & _ & Hcursor & _).
    split; [exact Haddr | exact Hcursor].
Defined.

Lemma program_serves_in_turn_witness :
  main_with string string parse proxy_to
    ["https://a.example"; "https://b.example"]%string "8000" =
    Running (NewLoadBalancer "8000" [a_example; b_example])
      [("serving requests at 'localhost:8000'" ++ newline)%string] /\
  ["https://a.example"; "https://b.example"]%string <> [] /\
  Z.of_nat (length three_requests) <= int_max + 1 /\
  exists results,
    requests (Server0 := simpleServer_Server string serve_http) id 0
      (NewLoadBalancer "8000" [a_example; b_example]) three_requests =
      Returned results
        (at_cursor (NewLoadBalancer "8000" [a_example; b_example])
           (wrap (Z.of_nat (length three_requests)))) /\
    length results = length three_requests /\
    forall k rw req,
      three_requests !! k = Some (rw, req) ->
      exists a,
        ["https://a.example"; "https://b.example"]%string
          !! (k mod length ["https://a.example"; "https://b.example"]%string)%nat
          = Some a /\
        results !! k =
          Some (serve_http (proxy_to (parse a).1) rw req,
                [Printed ("forwarding request to address "
                            ++ id a ++ newline)%string;
                 Forwarded (mkSimpleServer a (proxy_to (parse a).1)) req]).
Proof.
  assert (main_with string string parse proxy_to
            ["https://a.example"; "https://b.example"]%string "8000" =
          Running (NewLoadBalancer "8000" [a_example; b_example])
            [("serving requests at 'localhost:8000'" ++ newline)%string])
    as H1 by reflexivity.
  assert (["https://a.example"; "https://b.example"]%string <> []) as H2
    by discriminate.
  assert (Z.of_nat (length three_requests) <= int_max + 1) as H3
    by (vm_compute; discriminate).
  split; [exact H1 | split; [exact H2 | split; [exact H3|]]].
  exact (program_serves_in_turn string string parse proxy_to serve_http id
           _ _ _ _ 0 three_requests H1 H2 H3).
Defined.
